(** * Stream Deck TS SDK: readiness lifecycle, outgoing queue and event routing

    A shallow embedding of [EventManager] (src/manager/event.manager.ts) and
    of [StreamDeckHandlerBase] (the abstract handler class), followed by the
    properties of the readiness state machine, of the outgoing queue and of
    the action-scoped routing of inbound frames.

    The program is single threaded: every handler runs to completion, so a
    handler is a function from the state before to the state after, together
    with the way it completes (normally or by a thrown exception). *)

From stdpp Require Import base gmap strings list pretty.
From Stdlib Require Import ZArith Lia.

(** ** JavaScript values *)

Set Warnings "-register-all".

Module JS.

(** The values a JSON text denotes, plus [undefined]. Numbers are only
    carried around by the program, never computed with. *)
Inductive value :=
| JUndefined
| JNull
| JBool (b : bool)
| JNum (n : Z)
| JStr (s : string)
| JArr (items : list value)
| JObj (props : list (string * value)).

(** Exceptions the code or the platform can throw. *)
Inductive exn :=
| SyntaxError            (* JSON.parse on a text that is not JSON *)
| TypeError              (* property read on undefined or null *)
| InvalidStateError      (* WebSocket.send while CONNECTING *)
| IllegalArgumentError (message : string).

(** How a call completes. *)
Inductive completion (A : Type) :=
| Normal (a : A)
| Throw (e : exn).
Arguments Normal {A} a.
Arguments Throw {A} e.

(** [typeof v] *)
Definition typeof (v : value) : string :=
  match v with
  | JUndefined => "undefined"
  | JNull => "object"
  | JBool _ => "boolean"
  | JNum _ => "number"
  | JStr _ => "string"
  | JArr _ => "object"
  | JObj _ => "object"
  end.

(** [!s] for a string: only the empty string is falsy. *)
Definition not_str (s : string) : bool := String.eqb s "".

(** [o ?? d] where [None] stands for undefined or null. *)
Definition nullish {A} (o : option A) (d : A) : A :=
  match o with Some a => a | None => d end.

(** Reading and writing an own property of an object literal. *)
Fixpoint get_prop (k : string) (props : list (string * value)) : value :=
  match props with
  | [] => JUndefined
  | (k', v) :: rest => if String.eqb k k' then v else get_prop k rest
  end.

Fixpoint set_prop (k : string) (v : value) (props : list (string * value))
  : list (string * value) :=
  match props with
  | [] => [(k, v)]
  | (k', v') :: rest =>
      if String.eqb k k' then (k', v) :: rest else (k', v') :: set_prop k v rest
  end.

(** [{...target, ...source}]: the properties of [source] are copied over
    those of [target], in order. *)
Definition spread (target source : list (string * value)) : list (string * value) :=
  fold_left (fun o kv => set_prop (fst kv) (snd kv) o) source target.

(** [payload.settings]: reading a property of undefined or null throws;
    "settings" is not a member of any primitive or array. *)
Definition dot_settings (payload : value) : completion value :=
  match payload with
  | JUndefined | JNull => Throw TypeError
  | JObj props => Normal (get_prop "settings" props)
  | _ => Normal JUndefined
  end.

(** What [JSON.stringify] keeps of a value: a property whose value is
    undefined is omitted, an undefined array element is written null. *)
Fixpoint json_of (v : value) : value :=
  match v with
  | JArr items =>
      JArr (map (fun x => match x with JUndefined => JNull | _ => json_of x end) items)
  | JObj props =>
      JObj ((fix go (ps : list (string * value)) : list (string * value) :=
               match ps with
               | [] => []
               | (k, x) :: rest =>
                   match x with
                   | JUndefined => go rest
                   | _ => (k, json_of x) :: go rest
                   end
               end) props)
  | _ => v
  end.

(** A serialized value: the text [JSON.stringify v], kept symbolic. *)
Inductive text := Stringify (v : value).

Definition JSON_stringify (v : value) : text := Stringify (json_of v).

(** Names every array inherits (ECMAScript 2023 [Array.prototype] and
    [Object.prototype]). *)
Definition Array_prototype_keys : list string :=
  [ "at"; "concat"; "constructor"; "copyWithin"; "entries"; "every"; "fill";
    "filter"; "find"; "findIndex"; "findLast"; "findLastIndex"; "flat";
    "flatMap"; "forEach"; "includes"; "indexOf"; "join"; "keys";
    "lastIndexOf"; "map"; "pop"; "push"; "reduce"; "reduceRight"; "reverse";
    "shift"; "slice"; "some"; "sort"; "splice"; "toLocaleString";
    "toReversed"; "toSorted"; "toSpliced"; "toString"; "unshift"; "values";
    "with" ].

Definition Object_prototype_keys : list string :=
  [ "constructor"; "hasOwnProperty"; "isPrototypeOf"; "propertyIsEnumerable";
    "toLocaleString"; "toString"; "valueOf"; "__proto__";
    "__defineGetter__"; "__defineSetter__"; "__lookupGetter__";
    "__lookupSetter__" ].

Definition mem (k : string) (l : list string) : bool :=
  existsb (String.eqb k) l.

(** The own property names of an array with [n] elements: its indices in
    canonical decimal form, and "length". *)
Definition own_keys (n : nat) : list string :=
  map (fun i : nat => pretty i) (seq 0 n) ++ ["length"].

(** [k in arr]: is [k] the name of an own or inherited property of the
    array? The elements of the array play no part. *)
Definition in_array (k : string) (arr : list string) : bool :=
  mem k (own_keys (length arr)) || mem k Array_prototype_keys
  || mem k Object_prototype_keys.

End JS.
Export JS.

(** ** Data model *)

(** An inbound frame [{event, action?, payload?}] as the handler's type
    annotations declare it: [event] is a string, [action] a string when
    present ([None]: absent or null), [payload] is any value
    ([JUndefined]: absent). *)
Record InboundFrame := mkFrame {
  event : string;
  action : option string;
  payload : value
}.

(** The [data] of a [MessageEvent]: a text that is not JSON, or the text of a
    frame. A text that is JSON and no frame (the text [null], a number, an
    array) is not in this type. *)
Inductive MessageData :=
| Malformed (raw : string)
| Encoded (frame : InboundFrame).

(** [JSON.parse(ev.data)] *)
Definition JSON_parse (data : MessageData) : completion InboundFrame :=
  match data with
  | Malformed _ => Throw SyntaxError
  | Encoded frame => Normal frame
  end.

(** What [callEvents] hands on to the callbacks after the action name. *)
Inductive Param :=
| PFrame (eventData : InboundFrame)   (* the parsed inbound frame *)
| PSettingsManager                    (* [this.settingsManager] *)
| PText (s : string).                 (* the [actionInfo] text *)

(** One line on the console, by the statement that wrote it. *)
Inductive ConsoleMsg :=
| LogListener (event : string)
| LogNote
| LogUpstream (event eventActionName actionName : string)
| WarnFailed (eventActionName actionName : string)
| WarnFixOne (event eventActionName actionName : string)
| WarnFixTwo (event eventActionName actionName : string)
| LogCallEvents (eventName actionName : string) (params : list Param)
| LogSend (event : value) (eventToSend : value)
| ErrCouldNotSend
| LogResending (cachedEvents : list text)
| LogReceive (event : string) (eventData : InboundFrame).

(** What the program does to the outside, in the order it does it. [Emit]
    records that [callEvents] was entered with these arguments. *)
Inductive Effect :=
| Emit (eventName actionName : string) (params : list Param)
| Apply (descriptor instance : nat) (params : list Param)
| Console (msg : ConsoleMsg)
| Transmit (frame : text)
| CacheGlobalSettings (settings : value).

(** The closure that [DefaultDecoratorEventListener] registers: it has
    captured the event name, the action filter, the receiving instance and
    the decorated method (each instance and method stands for itself, as a
    number). *)
Record Callback := mkCallback {
  cb_event : string;
  cb_actionName : string;
  cb_instance : nat;
  cb_descriptor : nat
}.

(** A listener pushed on [target._sd_events] by the decorator helper. *)
Record EventListener := mkListener {
  el_event : string;
  el_descriptor : nat
}.

Inductive ReadyState := CONNECTING | OPEN | CLOSING | CLOSED.

Record WebSocket := mkWebSocket {
  url : string;
  readyState : ReadyState
}.

(** The fields of the handler, the subscription table of the [EventManager]
    singleton, the global settings held by the settings manager and the
    effects so far. *)
Record State := mkState {
  _documentReady : bool;
  _connectionReady : bool;
  _globalSettingsReady : bool;
  _documentReadyInvoked : bool;
  _connectionReadyInvoked : bool;
  _globalSettingsInvoked : bool;
  _onReadyInvoked : bool;
  _debug : bool;
  _port : option string;
  _uuid : option string;
  _registerEvent : option string;
  _info : value;
  _ws : option WebSocket;
  _cachedEvents : list text;
  registeredEvents : gmap string (list Callback);
  globalSettings : value;
  trace : list Effect
}.

(** The state after the field initialisers have run. *)
Definition initial : State :=
  {| _documentReady := false; _connectionReady := false;
     _globalSettingsReady := false; _documentReadyInvoked := false;
     _connectionReadyInvoked := false; _globalSettingsInvoked := false;
     _onReadyInvoked := false; _debug := false;
     _port := None; _uuid := None; _registerEvent := None; _info := JUndefined;
     _ws := None; _cachedEvents := []; registeredEvents := ∅;
     globalSettings := JUndefined; trace := [] |}.

(** Assignments to one field. *)
Definition set_documentReady (x : bool) (s : State) : State :=
  mkState x (_connectionReady s) (_globalSettingsReady s)
    (_documentReadyInvoked s) (_connectionReadyInvoked s)
    (_globalSettingsInvoked s) (_onReadyInvoked s) (_debug s) (_port s)
    (_uuid s) (_registerEvent s) (_info s) (_ws s) (_cachedEvents s)
    (registeredEvents s) (globalSettings s) (trace s).
Definition set_connectionReady (x : bool) (s : State) : State :=
  mkState (_documentReady s) x (_globalSettingsReady s)
    (_documentReadyInvoked s) (_connectionReadyInvoked s)
    (_globalSettingsInvoked s) (_onReadyInvoked s) (_debug s) (_port s)
    (_uuid s) (_registerEvent s) (_info s) (_ws s) (_cachedEvents s)
    (registeredEvents s) (globalSettings s) (trace s).
Definition set_globalSettingsReady (x : bool) (s : State) : State :=
  mkState (_documentReady s) (_connectionReady s) x (_documentReadyInvoked s)
    (_connectionReadyInvoked s) (_globalSettingsInvoked s) (_onReadyInvoked s)
    (_debug s) (_port s) (_uuid s) (_registerEvent s) (_info s) (_ws s)
    (_cachedEvents s) (registeredEvents s) (globalSettings s) (trace s).
Definition set_documentReadyInvoked (x : bool) (s : State) : State :=
  mkState (_documentReady s) (_connectionReady s) (_globalSettingsReady s) x
    (_connectionReadyInvoked s) (_globalSettingsInvoked s) (_onReadyInvoked s)
    (_debug s) (_port s) (_uuid s) (_registerEvent s) (_info s) (_ws s)
    (_cachedEvents s) (registeredEvents s) (globalSettings s) (trace s).
Definition set_connectionReadyInvoked (x : bool) (s : State) : State :=
  mkState (_documentReady s) (_connectionReady s) (_globalSettingsReady s)
    (_documentReadyInvoked s) x (_globalSettingsInvoked s) (_onReadyInvoked s)
    (_debug s) (_port s) (_uuid s) (_registerEvent s) (_info s) (_ws s)
    (_cachedEvents s) (registeredEvents s) (globalSettings s) (trace s).
Definition set_globalSettingsInvoked (x : bool) (s : State) : State :=
  mkState (_documentReady s) (_connectionReady s) (_globalSettingsReady s)
    (_documentReadyInvoked s) (_connectionReadyInvoked s) x
    (_onReadyInvoked s) (_debug s) (_port s) (_uuid s) (_registerEvent s)
    (_info s) (_ws s) (_cachedEvents s) (registeredEvents s)
    (globalSettings s) (trace s).
Definition set_onReadyInvoked (x : bool) (s : State) : State :=
  mkState (_documentReady s) (_connectionReady s) (_globalSettingsReady s)
    (_documentReadyInvoked s) (_connectionReadyInvoked s)
    (_globalSettingsInvoked s) x (_debug s) (_port s) (_uuid s)
    (_registerEvent s) (_info s) (_ws s) (_cachedEvents s)
    (registeredEvents s) (globalSettings s) (trace s).
Definition set_debug (x : bool) (s : State) : State :=
  mkState (_documentReady s) (_connectionReady s) (_globalSettingsReady s)
    (_documentReadyInvoked s) (_connectionReadyInvoked s)
    (_globalSettingsInvoked s) (_onReadyInvoked s) x (_port s) (_uuid s)
    (_registerEvent s) (_info s) (_ws s) (_cachedEvents s)
    (registeredEvents s) (globalSettings s) (trace s).
Definition set_port (x : option string) (s : State) : State :=
  mkState (_documentReady s) (_connectionReady s) (_globalSettingsReady s)
    (_documentReadyInvoked s) (_connectionReadyInvoked s)
    (_globalSettingsInvoked s) (_onReadyInvoked s) (_debug s) x (_uuid s)
    (_registerEvent s) (_info s) (_ws s) (_cachedEvents s)
    (registeredEvents s) (globalSettings s) (trace s).
Definition set_uuid (x : option string) (s : State) : State :=
  mkState (_documentReady s) (_connectionReady s) (_globalSettingsReady s)
    (_documentReadyInvoked s) (_connectionReadyInvoked s)
    (_globalSettingsInvoked s) (_onReadyInvoked s) (_debug s) (_port s) x
    (_registerEvent s) (_info s) (_ws s) (_cachedEvents s)
    (registeredEvents s) (globalSettings s) (trace s).
Definition set_registerEvent (x : option string) (s : State) : State :=
  mkState (_documentReady s) (_connectionReady s) (_globalSettingsReady s)
    (_documentReadyInvoked s) (_connectionReadyInvoked s)
    (_globalSettingsInvoked s) (_onReadyInvoked s) (_debug s) (_port s)
    (_uuid s) x (_info s) (_ws s) (_cachedEvents s) (registeredEvents s)
    (globalSettings s) (trace s).
Definition set_info (x : value) (s : State) : State :=
  mkState (_documentReady s) (_connectionReady s) (_globalSettingsReady s)
    (_documentReadyInvoked s) (_connectionReadyInvoked s)
    (_globalSettingsInvoked s) (_onReadyInvoked s) (_debug s) (_port s)
    (_uuid s) (_registerEvent s) x (_ws s) (_cachedEvents s)
    (registeredEvents s) (globalSettings s) (trace s).
Definition set_ws (x : option WebSocket) (s : State) : State :=
  mkState (_documentReady s) (_connectionReady s) (_globalSettingsReady s)
    (_documentReadyInvoked s) (_connectionReadyInvoked s)
    (_globalSettingsInvoked s) (_onReadyInvoked s) (_debug s) (_port s)
    (_uuid s) (_registerEvent s) (_info s) x (_cachedEvents s)
    (registeredEvents s) (globalSettings s) (trace s).
Definition set_cachedEvents (x : list text) (s : State) : State :=
  mkState (_documentReady s) (_connectionReady s) (_globalSettingsReady s)
    (_documentReadyInvoked s) (_connectionReadyInvoked s)
    (_globalSettingsInvoked s) (_onReadyInvoked s) (_debug s) (_port s)
    (_uuid s) (_registerEvent s) (_info s) (_ws s) x (registeredEvents s)
    (globalSettings s) (trace s).
Definition set_registeredEvents (x : gmap string (list Callback)) (s : State) : State :=
  mkState (_documentReady s) (_connectionReady s) (_globalSettingsReady s)
    (_documentReadyInvoked s) (_connectionReadyInvoked s)
    (_globalSettingsInvoked s) (_onReadyInvoked s) (_debug s) (_port s)
    (_uuid s) (_registerEvent s) (_info s) (_ws s) (_cachedEvents s) x
    (globalSettings s) (trace s).
Definition set_globalSettings (x : value) (s : State) : State :=
  mkState (_documentReady s) (_connectionReady s) (_globalSettingsReady s)
    (_documentReadyInvoked s) (_connectionReadyInvoked s)
    (_globalSettingsInvoked s) (_onReadyInvoked s) (_debug s) (_port s)
    (_uuid s) (_registerEvent s) (_info s) (_ws s) (_cachedEvents s)
    (registeredEvents s) x (trace s).
Definition set_trace (x : list Effect) (s : State) : State :=
  mkState (_documentReady s) (_connectionReady s) (_globalSettingsReady s)
    (_documentReadyInvoked s) (_connectionReadyInvoked s)
    (_globalSettingsInvoked s) (_onReadyInvoked s) (_debug s) (_port s)
    (_uuid s) (_registerEvent s) (_info s) (_ws s) (_cachedEvents s)
    (registeredEvents s) (globalSettings s) x.

(** ** Calls that may throw

    A call takes the state, may change it and completes normally or by a
    throw; a throw keeps the changes made before it. *)

Definition M (A : Type) : Type := State -> State * completion A.

#[export] Instance M_ret : MRet M := fun A a s => (s, Normal a).

#[export] Instance M_bind : MBind M := fun A B k m s =>
  match m s with
  | (s', Normal a) => k a s'
  | (s', Throw e) => (s', Throw e)
  end.

Definition throw {A} (e : exn) : M A := fun s => (s, Throw e).

(** A call that cannot throw. *)
Definition lift (f : State -> State) : M unit := fun s => (f s, Normal tt).

(** The value of an expression that may throw. *)
Definition eval {A} (c : completion A) : M A := fun s => (s, c).

(** [for (let x of xs) body(x)] *)
Fixpoint for_of {A} (xs : list A) (body : A -> M unit) : M unit :=
  match xs with
  | [] => mret tt
  | x :: rest => body x ;; for_of rest body
  end.

Definition when (b : bool) (m : M unit) : M unit := if b then m else mret tt.

(** Appending to the effects: one effect, and one console line. *)
Definition effect (e : Effect) (s : State) : State :=
  set_trace (trace s ++ [e]) s.

Definition console (msg : ConsoleMsg) (s : State) : State :=
  effect (Console msg) s.

(** ** EventManager (src/manager/event.manager.ts) *)

Module EventManager.

(** The array literal both membership tests are written against. *)
Definition global_events : list string :=
  ["didReceiveGlobalSettings"; "globalSettingsAvailable"; "setupReady"].

(** The constant declared in the callback. *)
Definition fixVariant : nat := 1.

(** [descriptor.value.apply(instance, params)] *)
Definition apply (cb : Callback) (params : list Param) (s : State) : State :=
  effect (Apply (cb_descriptor cb) (cb_instance cb) params) s.

(** The callback registered at line 48, called as
    [val(eventActionName, ...params)]. *)
Definition callback (cb : Callback) (eventActionName : string)
    (params : list Param) (s : State) : State :=
  let event := cb_event cb in
  let actionName := cb_actionName cb in
  let s := console (LogListener event) s in
  let s := if in_array event global_events then console LogNote s else s in
  if not_str eventActionName || String.eqb actionName "*"
     || String.eqb actionName eventActionName
  then
    let s := console (LogUpstream event eventActionName actionName) s in
    apply cb params s
  else
    let s := console (WarnFailed eventActionName actionName) s in
    if Nat.eqb fixVariant 1 then
      if not_str eventActionName || String.eqb eventActionName "*"
         || String.eqb actionName eventActionName
      then
        let s := console (WarnFixOne event eventActionName actionName) s in
        apply cb params s
      else s
    else
      if not_str eventActionName || String.eqb actionName "*"
         || String.eqb eventActionName "*"
         || String.eqb actionName eventActionName
      then
        let s := console (WarnFixTwo event eventActionName actionName) s in
        apply cb params s
      else s.

(** [registerEvent(eventName, callback)] *)
Definition registerEvent (eventName : string) (cb : Callback) (s : State) : State :=
  let s :=
    match registeredEvents s !! eventName with
    | None => set_registeredEvents (<[eventName := []]> (registeredEvents s)) s
    | Some _ => s
    end in
  match registeredEvents s !! eventName with
  | Some cbs => set_registeredEvents (<[eventName := cbs ++ [cb]]> (registeredEvents s)) s
  | None => s
  end.

(** [callEvents(eventName, actionName = '*', ...params)]; [None] for an
    action name left out. *)
Definition callEvents (eventName : string) (actionName : option string)
    (params : list Param) (s : State) : State :=
  let actionName := nullish actionName "*" in
  let s := effect (Emit eventName actionName params) s in
  let s :=
    if in_array eventName global_events
    then console (LogCallEvents eventName actionName params) s
    else s in
  match registeredEvents s !! eventName with
  | Some cbs => fold_left (fun s val => callback val actionName params s) cbs s
  | None => s
  end.

(** The listener [eventListener(actionName, instance)] that
    [DefaultDecoratorEventListener(event, target, propertyKey, descriptor)]
    builds. *)
Definition eventListener (l : EventListener) (actionName : value) (instance : nat)
  : M unit :=
  if negb (String.eqb (typeof actionName) "string") then
    throw (IllegalArgumentError
             ("actionName needs to be of type string but "
                +:+ typeof actionName +:+ " given."))
  else
    let name := match actionName with JStr name => name | _ => "" end in
    lift (registerEvent (el_event l)
            (mkCallback (el_event l) name instance (el_descriptor l))).

(** [DefaultDecoratorEventListener]: the listener is pushed on
    [target._sd_events] (created when missing). *)
Definition DefaultDecoratorEventListener (event : string) (descriptor : nat)
    (_sd_events : option (list EventListener)) : list EventListener :=
  nullish _sd_events [] ++ [mkListener event descriptor].

End EventManager.
Import EventManager.

(** ** StreamDeckHandlerBase *)

Module Handler.

Definition get : M State := fun s => (s, Normal s).

(** A field that may still be undefined, as a value. *)
Definition of_option (o : option string) : value :=
  match o with Some s => JStr s | None => JUndefined end.

(** [this._ws.send(data)]. The platform's [WebSocket.send] throws while the
    socket is CONNECTING, hands the data to the network when it is OPEN, and
    discards it silently when it is CLOSING or CLOSED; reading [send] off an
    undefined [_ws] throws. *)
Definition WebSocket_send (data : text) : M unit := fun s =>
  match _ws s with
  | None => (s, Throw TypeError)
  | Some w =>
      match readyState w with
      | CONNECTING => (s, Throw InvalidStateError)
      | OPEN => (effect (Transmit data) s, Normal tt)
      | CLOSING | CLOSED => (s, Normal tt)
      end
  end.

(** [send(event, data)] *)
Definition send (event : value) (data : list (string * value)) : M unit := fun s =>
  let eventToSend := JObj (spread [("event", event)] data) in
  let s := if _debug s then console (LogSend event eventToSend) s else s in
  match _ws s with
  | Some _ => WebSocket_send (JSON_stringify eventToSend) s
  | None =>
      let s := if _debug s then console ErrCouldNotSend s else s in
      (set_cachedEvents (_cachedEvents s ++ [JSON_stringify eventToSend]) s,
       Normal tt)
  end.

Definition setSettings (settings : value) (context : string) : M unit :=
  send (JStr "setSettings") [("context", JStr context); ("payload", settings)].

Definition requestSettings (context : string) : M unit :=
  send (JStr "getSettings") [("context", JStr context)].

Definition setGlobalSettings (settings : value) : M unit :=
  s ← get;
  send (JStr "setGlobalSettings")
       [("context", of_option (_uuid s)); ("payload", settings)].

Definition requestGlobalSettings : M unit :=
  s ← get;
  send (JStr "getGlobalSettings") [("context", of_option (_uuid s))].

Definition openUrl (url : string) : M unit :=
  send (JStr "openUrl") [("payload", JObj [("url", JStr url)])].

Definition logMessage (message : string) : M unit :=
  send (JStr "logMessage") [("payload", JObj [("message", JStr message)])].

Definition enableDebug (s : State) : State := set_debug true s.

(** [_handleReadyState()] *)
Definition _handleReadyState (s : State) : State :=
  let s :=
    if _connectionReady s && negb (_connectionReadyInvoked s)
    then callEvents "connectionOpened" None [] (set_connectionReadyInvoked true s)
    else s in
  let s :=
    if _documentReady s && negb (_documentReadyInvoked s)
    then callEvents "documentLoaded" None [] (set_documentReadyInvoked true s)
    else s in
  let s :=
    if _globalSettingsReady s && negb (_globalSettingsInvoked s)
    then callEvents "globalSettingsAvailable" (Some "*") [PSettingsManager]
           (set_globalSettingsInvoked true s)
    else s in
  if _globalSettingsInvoked s && _documentReadyInvoked s
     && _connectionReadyInvoked s && negb (_onReadyInvoked s)
  then callEvents "setupReady" None [] (set_onReadyInvoked true s)
  else s.

(** [_open()] *)
Definition _open : M unit :=
  s ← get;
  send (of_option (_registerEvent s)) [("uuid", of_option (_uuid s))] ;;
  s ← get;
  when (1 <=? length (_cachedEvents s))
    (when (_debug s) (lift (console (LogResending (_cachedEvents s)))) ;;
     for_of (_cachedEvents s) WebSocket_send) ;;
  lift (set_connectionReady true) ;;
  lift _handleReadyState ;;
  requestGlobalSettings.

(** Modelled from the spec: [SettingsManager.cacheGlobalSettings] lives in
    manager/settings.manager.ts, which is not part of the sources at hand;
    the settings cache is plain storage, so the call is recorded and the
    value stored. *)
Definition cacheGlobalSettings (settings : value) (s : State) : State :=
  set_globalSettings settings (effect (CacheGlobalSettings settings) s).

(** The event a socket delivers to [onmessage]. *)
Record MessageEvent := mkMessageEvent { data : MessageData }.

(** [_eventHandler(ev)] *)
Definition _eventHandler (ev : MessageEvent) : M unit :=
  eventData ← eval (JSON_parse (data ev));
  let event := event eventData in
  s ← get;
  when (_debug s) (lift (console (LogReceive event eventData))) ;;
  when (String.eqb event "didReceiveGlobalSettings")
    (settings ← eval (dot_settings (payload eventData));
     lift (cacheGlobalSettings settings) ;;
     lift (set_globalSettingsReady true) ;;
     lift _handleReadyState) ;;
  lift (callEvents event (Some (nullish (action eventData) "*"))
          [PFrame eventData]).

(** [_connectElgatoStreamDeckSocket()]: a new socket starts CONNECTING; its
    three handlers are the cases [WsOpen], [WsClose] and [WsMessage] of
    [step] below. The constructor is taken to succeed, as it does for the
    ports the host hands over ([decimal_port] below); a port that makes no
    valid URL, for which it throws, is not covered. *)
Definition _connectElgatoStreamDeckSocket (s : State) : State :=
  set_ws (Some (mkWebSocket
                  ("ws://127.0.0.1:" +:+ nullish (_port s) "undefined")
                  CONNECTING)) s.

(** The callback handed to [_docReady], which the document runs later. *)
Definition documentReady_callback (s : State) : State :=
  _handleReadyState (set_documentReady true s).

(** [window.connectElgatoStreamDeckSocket(port, uuid, registerEvent, info,
    actionInfo)]; [info = None] is a text that is not JSON. *)
Definition connectElgatoStreamDeckSocket (port uuid registerEvent : string)
    (info : option value) (actionInfo : option string) : M unit :=
  lift (set_port (Some port)) ;;
  lift (set_uuid (Some uuid)) ;;
  lift (set_registerEvent (Some registerEvent)) ;;
  parsed ← eval (match info with Some v => Normal v | None => Throw SyntaxError end);
  lift (set_info parsed) ;;
  match actionInfo with
  | Some text =>
      when (negb (not_str text))
        (lift (callEvents "registerPi" (Some "*") [PText text]))
  | None => mret tt
  end ;;
  lift _connectElgatoStreamDeckSocket.

(** The constructor: every decorated listener is subscribed with the
    wildcard filter. *)
Definition constructor (_sd_events : option (list EventListener)) (this : nat)
  : M unit :=
  match _sd_events with
  | Some events => for_of events (fun event => eventListener event (JStr "*") this)
  | None => mret tt
  end.

End Handler.
Import Handler.

(** ** The event loop

    What can happen to a handler, one event at a time: the program builds
    the handler, subscribes a listener and sends; the host connects; the
    document becomes ready; the socket opens, closes and delivers a
    message. *)

Inductive Op :=
| Construct (_sd_events : option (list EventListener)) (this : nat)
| Listen (l : EventListener) (actionName : value) (instance : nat)
| EnableDebug
| Send (event : string) (data : list (string * value))
| Connect (port uuid registerEvent : string) (info : option value)
    (actionInfo : option string)
| DocReady
| WsOpen
| WsClose
| WsMessage (ev : MessageEvent).

(** The platform moves the socket to a new ready state before it calls the
    handler. *)
Definition ws_becomes (st : ReadyState) (s : State) : State :=
  match _ws s with
  | Some w => set_ws (Some (mkWebSocket (url w) st)) s
  | None => s
  end.

Definition step (op : Op) : M unit :=
  match op with
  | Construct _sd_events this => constructor _sd_events this
  | Listen l actionName instance => eventListener l actionName instance
  | EnableDebug => lift enableDebug
  | Send event data => send (JStr event) data
  | Connect port uuid registerEvent info actionInfo =>
      connectElgatoStreamDeckSocket port uuid registerEvent info actionInfo
  | DocReady => lift documentReady_callback
  | WsOpen => lift (ws_becomes OPEN) ;; _open
  | WsClose =>
      lift (ws_becomes CLOSED) ;; lift (callEvents "connectionClosed" None [])
  | WsMessage ev => _eventHandler ev
  end.

(** An exception that escapes a handler is reported by the platform and the
    next event is delivered all the same, to the state the throw left. *)
Definition run (ops : list Op) (s : State) : State :=
  fold_left (fun s op => fst (step op s)) ops s.

(** ** Reading the effects *)

(** The four lifecycle notifications, as [_handleReadyState] emits them. *)
Inductive Notification :=
| connectionOpened
| documentLoaded
| globalSettingsAvailable
| setupReady.

#[export] Instance Notification_eq_dec : EqDecision Notification.
Proof. solve_decision. Defined.

(** Which notification a call of [callEvents] is, if any: the name, the
    wildcard marker as action name, and the parameters [_handleReadyState]
    passes. A frame of the host that bears one of the four names is forwarded
    with the frame as its parameter, and is not a notification. *)
Definition notification (e : Effect) : option Notification :=
  match e with
  | Emit eventName actionName [] =>
      if negb (String.eqb actionName "*") then None
      else if String.eqb eventName "connectionOpened" then Some connectionOpened
      else if String.eqb eventName "documentLoaded" then Some documentLoaded
      else if String.eqb eventName "setupReady" then Some setupReady
      else None
  | Emit eventName actionName [PSettingsManager] =>
      if String.eqb actionName "*" && String.eqb eventName "globalSettingsAvailable"
      then Some globalSettingsAvailable
      else None
  | _ => None
  end.

(** The notifications emitted so far, in order. *)
Definition notifications (s : State) : list Notification :=
  omap notification (trace s).

(** How often a notification occurs. *)
Definition count (n : Notification) (l : list Notification) : nat :=
  length (filter (fun m => m = n) l).

(** The frames handed to the network, in order. *)
Definition transmitted (s : State) : list text :=
  omap (fun e => match e with Transmit t => Some t | _ => None end) (trace s).


(** The calls of [callEvents], in order. *)
Definition emitted (s : State) : list (string * string * list Param) :=
  omap (fun e => match e with Emit n a p => Some (n, a, p) | _ => None end)
       (trace s).

(** [add_effects l s] is [s] with the effects [l] appended. *)
Definition add_effects (l : list Effect) (s : State) : State :=
  set_trace (trace s ++ l) s.

(** The effects of a call that does nothing but write effects, read off a
    run from the initial state. *)
Definition effects_of (f : State -> State) : list Effect := trace (f initial).

(** The effects written since [s]. *)
Definition new_effects (s s' : State) : list Effect :=
  drop (length (trace s)) (trace s').

(** Effects of the subscribers' side: console lines and applications. *)
Definition quiet (e : Effect) : Prop :=
  match e with
  | Console _ | Apply _ _ _ => True
  | _ => False
  end.

(** The callbacks registered for an event name. *)
Definition callbacks_for (eventName : string) (s : State) : list Callback :=
  default [] (registeredEvents s !! eventName).

(** What [callEvents] writes after its [Emit]: its console line, then the
    effects of every callback registered for the event, in registration
    order. *)
Definition subscribers_effects (eventName actionName : string)
    (params : list Param) (s : State) : list Effect :=
  (if in_array eventName global_events
   then [Console (LogCallEvents eventName actionName params)] else [])
  ++ flat_map (fun cb => effects_of (callback cb actionName params))
       (callbacks_for eventName s).

(** ** The readiness state, as the invariants see it *)

(** The latch that guards a notification. *)
Definition latch (n : Notification) (s : State) : bool :=
  match n with
  | connectionOpened => _connectionReadyInvoked s
  | documentLoaded => _documentReadyInvoked s
  | globalSettingsAvailable => _globalSettingsInvoked s
  | setupReady => _onReadyInvoked s
  end.

(** The three flags and four latches, and with them the notifications
    emitted so far. *)
Definition readiness (s : State) : list bool :=
  [ _documentReady s; _connectionReady s; _globalSettingsReady s;
    _documentReadyInvoked s; _connectionReadyInvoked s;
    _globalSettingsInvoked s; _onReadyInvoked s ].

Definition view (s : State) : list bool * list Notification :=
  (readiness s, notifications s).

(** Every [setupReady] comes after the three other notifications. *)
Definition ordered (l : list Notification) : Prop :=
  forall pre post, l = pre ++ setupReady :: post ->
    connectionOpened ∈ pre /\ documentLoaded ∈ pre
    /\ globalSettingsAvailable ∈ pre.

(** A notification has been emitted once when its latch is set and never
    otherwise; the composite latch is set only after the three others. *)
Definition latched (s : State) : Prop :=
  (forall n, count n (notifications s) = if latch n s then 1 else 0)
  /\ (latch setupReady s = true -> forall n, latch n s = true)
  /\ ordered (notifications s).

(** Nothing is left for [_handleReadyState] to do: every flag that is true
    has its latch set, and so has the composite once the three are. *)
Definition settled (s : State) : Prop :=
  (_connectionReady s = true -> _connectionReadyInvoked s = true)
  /\ (_documentReady s = true -> _documentReadyInvoked s = true)
  /\ (_globalSettingsReady s = true -> _globalSettingsInvoked s = true)
  /\ (_connectionReadyInvoked s = true -> _documentReadyInvoked s = true ->
      _globalSettingsInvoked s = true -> _onReadyInvoked s = true).

(** One rule of [_handleReadyState] firing: the latch is set and the
    notification emitted. *)
Definition notify (n : Notification) (s : State) : State :=
  match n with
  | connectionOpened =>
      callEvents "connectionOpened" None [] (set_connectionReadyInvoked true s)
  | documentLoaded =>
      callEvents "documentLoaded" None [] (set_documentReadyInvoked true s)
  | globalSettingsAvailable =>
      callEvents "globalSettingsAvailable" (Some "*") [PSettingsManager]
        (set_globalSettingsInvoked true s)
  | setupReady => callEvents "setupReady" None [] (set_onReadyInvoked true s)
  end.

(** The latch of a notification, set. *)
Definition raise (n : Notification) (s : State) : State :=
  match n with
  | connectionOpened => set_connectionReadyInvoked true s
  | documentLoaded => set_documentReadyInvoked true s
  | globalSettingsAvailable => set_globalSettingsInvoked true s
  | setupReady => set_onReadyInvoked true s
  end.

(** The effects a rule writes when it fires. *)
Definition notify_effects (n : Notification) (s : State) : list Effect :=
  new_effects (raise n s) (notify n s).

(** A rule of [_handleReadyState]: it fires when its condition holds. *)
Definition rule (c : bool) (n : Notification) (s : State) : State :=
  if c then notify n s else s.

(** The states the event loop can reach from the initial one. *)
Definition reachable (s : State) : Prop := exists ops, s = run ops initial.

(** A call started where [P] holds ends where [Q] holds when it completes
    normally and where [R] holds when it throws. *)
Definition hoare {A} (P : State -> Prop) (m : M A) (Q R : State -> Prop) : Prop :=
  forall s, P s ->
    match m s with
    | (s', Normal _) => Q s'
    | (s', Throw _) => R s'
    end.

(** A call that leaves the readiness state and the notifications alone. *)
Definition neutral {A} (m : M A) : Prop :=
  forall s, view (fst (m s)) = view s.

(** A property that only looks at the readiness state and the
    notifications. *)
Definition respects (P : State -> Prop) : Prop :=
  forall s s', view s = view s' -> P s -> P s'.

(** What holds between any two events of the loop. *)
Definition invariant (s : State) : Prop := latched s /\ settled s.


(** ** The routing rule, in words *)



(** The values handed to the settings cache, in order. *)
Definition cache_writes (s : State) : list value :=
  omap (fun e => match e with CacheGlobalSettings v => Some v | _ => None end)
       (trace s).

(** [callEvents] with the branch of the membership test removed. *)
Definition callEvents_plain (eventName : string) (actionName : option string)
    (params : list Param) (s : State) : State :=
  let actionName := nullish actionName "*" in
  let s := effect (Emit eventName actionName params) s in
  match registeredEvents s !! eventName with
  | Some cbs => fold_left (fun s val => callback val actionName params s) cbs s
  | None => s
  end.

(** The event names the sources and the specification mention. *)
Definition known_events : list string :=
  [ "didReceiveGlobalSettings"; "globalSettingsAvailable"; "setupReady";
    "connectionOpened"; "connectionClosed"; "documentLoaded"; "registerPi";
    "keyDown" ].

(** What [_handleReadyState] leaves alone: everything but the latches and
    the effects, to which it adds no transmission and no cache write. *)
Definition apart (s s' : State) : Prop :=
  _debug s' = _debug s /\ _uuid s' = _uuid s /\ _ws s' = _ws s
  /\ _cachedEvents s' = _cachedEvents s
  /\ registeredEvents s' = registeredEvents s
  /\ globalSettings s' = globalSettings s
  /\ transmitted s' = transmitted s
  /\ cache_writes s' = cache_writes s.

(** The effects that are not console lines. *)
Definition non_console (tr : list Effect) : list Effect :=
  List.filter (fun e => match e with Console _ => false | _ => true end) tr.

(** The names for which the membership test holds. *)
Definition array_keys : list string :=
  ["0"; "1"; "2"; "length"] ++ Array_prototype_keys ++ Object_prototype_keys.

(** ** The wire *)

(** The serialized frame [send(event, data)] makes. *)
Definition outgoing (event : value) (data : list (string * value)) : text :=
  JSON_stringify (JObj (spread [("event", event)] data)).

(** From [s] to [s'] the frames [l] have been transmitted, in this order,
    and the socket, the queue and the registration data are what they
    were. *)
Definition sent (l : list text) (s s' : State) : Prop :=
  _debug s' = _debug s /\ _uuid s' = _uuid s
  /\ _registerEvent s' = _registerEvent s /\ _ws s' = _ws s
  /\ _cachedEvents s' = _cachedEvents s
  /\ transmitted s' = transmitted s ++ l.

(** The socket is open. *)
Definition is_open (s : State) : Prop :=
  exists w, _ws s = Some w /\ readyState w = OPEN.

(** A message as the program sends it. *)
Definition Message : Type := string * list (string * value).

Definition send_op (m : Message) : Op := Send (fst m) (snd m).

Definition frame_of (m : Message) : text := outgoing (JStr (fst m)) (snd m).

(** ** Further readings of the state *)

(** The flag, or flags, a notification waits for. *)
Definition flag (n : Notification) (s : State) : bool :=
  match n with
  | connectionOpened => _connectionReady s
  | documentLoaded => _documentReady s
  | globalSettingsAvailable => _globalSettingsReady s
  | setupReady => _connectionReady s && _documentReady s && _globalSettingsReady s
  end.

(** No latch is set whose flag is not. *)
Definition grounded (s : State) : Prop :=
  forall n, latch n s = true -> flag n s = true.

(** The two tests of the callback taken together: does it apply its method
    when called with [eventActionName]? *)
Definition passes (actionName eventActionName : string) : bool :=
  not_str eventActionName || String.eqb eventActionName "*"
  || String.eqb actionName "*" || String.eqb actionName eventActionName.

(** The applications among some effects, whatever the method. *)
Definition applications (tr : list Effect) : list Effect :=
  List.filter (fun e => match e with Apply _ _ _ => true | _ => false end) tr.

(** Does the object literal have this key? *)
Definition has_key (k : string) (props : list (string * value)) : bool :=
  existsb (fun kv => String.eqb k (fst kv)) props.

(** The callback the constructor registers for a listener. *)
Definition wildcard_callback (this : nat) (l : EventListener) : Callback :=
  mkCallback (el_event l) "*" this (el_descriptor l).

(** The listeners of a list that are for one event. *)
Definition listeners_for (eventName : string) (events : list EventListener)
  : list EventListener :=
  List.filter (fun l => String.eqb (el_event l) eventName) events.

(** A call that leaves a reading [proj] of the state as it was, however it
    completes. *)
Definition keeps {A X} (proj : State -> X) (m : M A) : Prop :=
  forall s, proj (fst (m s)) = proj s.

(** No transmission among some effects. *)
Definition no_transmit (l : list Effect) : Prop :=
  omap (fun e => match e with Transmit t => Some t | _ => None end) l = [].

(** What an inbound frame, the document and a closing socket leave alone:
    the frames transmitted and the queue. *)
Definition wire (s : State) : list text * list text :=
  (transmitted s, _cachedEvents s).

(** ** Debugging aside *)

(** The state with the console lines and the debug switch taken out. *)
Definition hush (s : State) : State :=
  set_debug false (set_trace (non_console (trace s)) s).

(** Two completions that agree: the same throw, or results related by
    [RA]. *)
Definition agree {A} (RA : A -> A -> Prop) (c c' : completion A) : Prop :=
  match c, c' with
  | Normal a, Normal a' => RA a a'
  | Throw e, Throw e' => e = e'
  | _, _ => False
  end.

(** Two calls that, started in states equal but for the console and the
    debug switch, end in such states and complete alike. *)
Definition related {A} (RA : A -> A -> Prop) (m m' : M A) : Prop :=
  forall s s', hush s = hush s' ->
    hush (fst (m s)) = hush (fst (m' s')) /\ agree RA (snd (m s)) (snd (m' s')).

(** A result of no account. *)
Definition any_unit (a a' : unit) : Prop := True.


(** ** Ports *)

Definition ascii_digit (c : Ascii.ascii) : bool :=
  ((48 <=? Ascii.N_of_ascii c) && (Ascii.N_of_ascii c <=? 57))%N.

(** The number a text of decimal digits stands for, after [acc]. *)
Fixpoint port_number (acc : N) (p : string) : option N :=
  match p with
  | EmptyString => Some acc
  | String c rest =>
      if ascii_digit c
      then port_number (acc * 10 + (Ascii.N_of_ascii c - 48))%N rest
      else None
  end.

(** A port the host can hand over: decimal digits, at least one, for a
    number up to 65535. With such a port ["ws://127.0.0.1:" + port] is a
    valid URL and [new WebSocket] does not throw. *)
Definition decimal_port (port : string) : bool :=
  match port with
  | EmptyString => false
  | _ => match port_number 0 port with
         | Some n => (n <=? 65535)%N
         | None => false
         end
  end.

(** * Properties *)

(** ** Effects of the router *)

Section Effects.

Implicit Types (s : State) (l : list Effect) (cb : Callback).

Lemma add_effects_nil s : add_effects [] s = s.
Proof. destruct s; unfold add_effects, set_trace; simpl. by rewrite app_nil_r. Qed.

Lemma add_effects_app l1 l2 s :
  add_effects l2 (add_effects l1 s) = add_effects (l1 ++ l2) s.
Proof. unfold add_effects, set_trace; simpl. by rewrite app_assoc. Qed.

Lemma effect_add e s : effect e s = add_effects [e] s.
Proof. reflexivity. Qed.

Lemma console_add msg s : console msg s = add_effects [Console msg] s.
Proof. reflexivity. Qed.

Lemma apply_add cb params s :
  apply cb params s
  = add_effects [Apply (cb_descriptor cb) (cb_instance cb) params] s.
Proof. reflexivity. Qed.

Lemma new_effects_add l s : new_effects s (add_effects l s) = l.
Proof. unfold new_effects, add_effects; simpl. by rewrite drop_app_length. Qed.

Lemma notifications_add l s :
  notifications (add_effects l s) = notifications s ++ omap notification l.
Proof. unfold notifications, add_effects; simpl. by rewrite omap_app. Qed.

Lemma transmitted_add l s :
  transmitted (add_effects l s)
  = transmitted s
    ++ omap (fun e => match e with Transmit t => Some t | _ => None end) l.
Proof. unfold transmitted, add_effects; simpl. by rewrite omap_app. Qed.

Lemma omap_cons {A B} (f : A -> option B) (x : A) (xs : list A) :
  omap f (x :: xs) = option_list (f x) ++ omap f xs.
Proof. simpl. by destruct (f x). Qed.

Lemma quiet_no_notification l :
  Forall quiet l -> omap notification l = [].
Proof.
  induction 1 as [|e l He _ IH]; [done|].
  destruct e; simpl in *; try done.
Qed.

Lemma quiet_no_transmit l :
  Forall quiet l ->
  omap (fun e => match e with Transmit t => Some t | _ => None end) l = [].
Proof.
  induction 1 as [|e l He _ IH]; [done|].
  destruct e; simpl in *; try done.
Qed.

(** The callback only writes effects. *)
Lemma callback_add cb a params s :
  callback cb a params s = add_effects (effects_of (callback cb a params)) s.
Proof.
  unfold effects_of, callback.
  rewrite !console_add, !apply_add.
  repeat match goal with
         | |- context [if ?b then _ else _] => destruct b
         end;
    rewrite ?console_add, ?add_effects_app; try reflexivity;
    by rewrite ?add_effects_nil.
Qed.

Lemma callback_quiet cb a params : Forall quiet (effects_of (callback cb a params)).
Proof.
  unfold effects_of, callback.
  repeat match goal with
         | |- context [if ?b then _ else _] => destruct b
         end;
    simpl; repeat constructor.
Qed.

(** The effects of calling every callback of a list in turn. *)
Lemma fold_callbacks_add (cbs : list Callback) a params s :
  fold_left (fun s val => callback val a params s) cbs s
  = add_effects (flat_map (fun cb => effects_of (callback cb a params)) cbs) s.
Proof.
  revert s. induction cbs as [|cb cbs IH]; intros s; simpl.
  - by rewrite add_effects_nil.
  - by rewrite IH, callback_add, add_effects_app.
Qed.

Lemma flat_map_quiet (cbs : list Callback) a params :
  Forall quiet (flat_map (fun cb => effects_of (callback cb a params)) cbs).
Proof.
  induction cbs as [|cb cbs IH]; simpl; [constructor|].
  apply Forall_app; split; [apply callback_quiet | exact IH].
Qed.

End Effects.

(** ** Calls, and what they leave alone *)

Section Calls.

Implicit Types (s : State) (l : list Effect).

Lemma callEvents_add eventName actionName params s :
  callEvents eventName actionName params s
  = add_effects
      (Emit eventName (nullish actionName "*") params
         :: subscribers_effects eventName (nullish actionName "*") params s) s.
Proof.
  unfold callEvents, subscribers_effects, callbacks_for.
  set (a := nullish actionName "*").
  rewrite effect_add.
  assert (Hreg : forall l s0, registeredEvents (add_effects l s0) = registeredEvents s0)
    by reflexivity.
  destruct (in_array eventName global_events).
  - rewrite console_add, add_effects_app, Hreg.
    destruct (registeredEvents s !! eventName) as [cbs|]; simpl.
    + by rewrite fold_callbacks_add, add_effects_app.
    + reflexivity.
  - rewrite Hreg.
    destruct (registeredEvents s !! eventName) as [cbs|]; simpl.
    + by rewrite fold_callbacks_add, add_effects_app.
    + reflexivity.
Qed.

Lemma subscribers_quiet eventName actionName params s :
  Forall quiet (subscribers_effects eventName actionName params s).
Proof.
  unfold subscribers_effects. apply Forall_app; split.
  - destruct (in_array _ _); repeat constructor.
  - apply flat_map_quiet.
Qed.

Lemma notifications_callEvents eventName actionName params s :
  notifications (callEvents eventName actionName params s)
  = notifications s
    ++ option_list (notification (Emit eventName (nullish actionName "*") params)).
Proof.
  rewrite callEvents_add, notifications_add. f_equal.
  rewrite omap_cons, quiet_no_notification by apply subscribers_quiet.
  by rewrite app_nil_r.
Qed.

Lemma readiness_callEvents eventName actionName params s :
  readiness (callEvents eventName actionName params s) = readiness s.
Proof. by rewrite callEvents_add. Qed.

Lemma transmitted_callEvents eventName actionName params s :
  transmitted (callEvents eventName actionName params s) = transmitted s.
Proof.
  rewrite callEvents_add, transmitted_add. simpl.
  rewrite quiet_no_transmit by apply subscribers_quiet.
  by rewrite app_nil_r.
Qed.

End Calls.

(** ** The readiness coordinator *)

Section Readiness.

Implicit Types (s : State) (n m : Notification) (l : list Notification).

Lemma count_app n l1 l2 : count n (l1 ++ l2) = count n l1 + count n l2.
Proof. unfold count. by rewrite filter_app, length_app. Qed.

Lemma count_singleton n m : count n [m] = if decide (m = n) then 1 else 0.
Proof. unfold count. rewrite filter_cons, filter_nil. by destruct (decide (m = n)). Qed.

Lemma count_pos_elem n l : count n l = 1 -> n ∈ l.
Proof.
  unfold count. intros H.
  destruct (filter (fun m => m = n) l) as [|x xs] eqn:E; [done|].
  assert (Hx : x ∈ filter (fun m => m = n) l) by (rewrite E; left).
  apply list_elem_of_filter in Hx as [-> Hx]. done.
Qed.

Lemma notifications_notify n s :
  notifications (notify n s) = notifications s ++ [n].
Proof. destruct n; unfold notify; by rewrite notifications_callEvents. Qed.

Lemma latch_notify n m s :
  latch m (notify n s) = if decide (m = n) then true else latch m s.
Proof.
  destruct n, m; unfold notify; rewrite callEvents_add; reflexivity.
Qed.

Lemma ordered_snoc l n :
  ordered l ->
  (n = setupReady ->
   connectionOpened ∈ l /\ documentLoaded ∈ l /\ globalSettingsAvailable ∈ l) ->
  ordered (l ++ [n]).
Proof.
  intros Hord Hn pre post Heq.
  destruct (decide (post = [])) as [->|Hpost].
  - apply app_inj_tail in Heq as [-> ->]. by apply Hn.
  - destruct (exists_last Hpost) as (post' & x & ->).
    change (pre ++ setupReady :: post' ++ [x])
      with (pre ++ (setupReady :: post') ++ [x]) in Heq.
    rewrite app_assoc in Heq. apply app_inj_tail in Heq as [-> ->].
    by apply (Hord pre post').
Qed.

(** A rule that fires keeps the books straight. *)
Lemma latched_notify n s :
  latched s ->
  latch n s = false ->
  (n = setupReady -> forall m, m <> setupReady -> latch m s = true) ->
  latched (notify n s).
Proof.
  intros (Hcount & Hall & Hord) Hn Hsetup. split; [|split].
  - intros m. rewrite notifications_notify, count_app, count_singleton, latch_notify.
    rewrite Hcount.
    destruct (decide (n = m)) as [->|Hne].
    + rewrite decide_True by done. by rewrite Hn.
    + rewrite decide_False by done. destruct (latch m s); lia.
  - rewrite latch_notify. intros Hs m. rewrite latch_notify.
    destruct (decide (m = n)) as [|Hmn]; [done|].
    destruct (decide (setupReady = n)) as [<-|Hsn].
    + by apply Hsetup.
    + by apply Hall.
  - rewrite notifications_notify. apply ordered_snoc; [done|].
    intros ->. repeat split; apply count_pos_elem; rewrite Hcount;
      by rewrite Hsetup.
Qed.

End Readiness.

Section HandleReadyState.

Implicit Types (s : State) (n m : Notification).

(** [_handleReadyState] is its four rules, tried in order. *)
Lemma handleReadyState_rules s :
  _handleReadyState s =
  let s1 := if _connectionReady s && negb (latch connectionOpened s)
            then notify connectionOpened s else s in
  let s2 := if _documentReady s1 && negb (latch documentLoaded s1)
            then notify documentLoaded s1 else s1 in
  let s3 := if _globalSettingsReady s2 && negb (latch globalSettingsAvailable s2)
            then notify globalSettingsAvailable s2 else s2 in
  if latch globalSettingsAvailable s3 && latch documentLoaded s3
     && latch connectionOpened s3 && negb (latch setupReady s3)
  then notify setupReady s3 else s3.
Proof. reflexivity. Qed.

Lemma latched_rule (c : bool) n s :
  latched s ->
  (c = true ->
   latch n s = false
   /\ (n = setupReady -> forall m, m <> setupReady -> latch m s = true)) ->
  latched (if c then notify n s else s).
Proof.
  intros H Hc. destruct c; [|done].
  destruct Hc as [Hn Hall]; [done|]. by apply latched_notify.
Qed.

Lemma latched_handleReadyState s : latched s -> latched (_handleReadyState s).
Proof.
  intros H. rewrite handleReadyState_rules. cbv zeta.
  apply latched_rule.
  - do 3 (apply latched_rule;
          [| intros [_ E%negb_true_iff]%andb_true_iff; split; [exact E | done]]).
    exact H.
  - intros [E E4%negb_true_iff]%andb_true_iff. split; [exact E4|].
    apply andb_true_iff in E as [E Ec]. apply andb_true_iff in E as [Eg Ed].
    intros _ m Hm. by destruct m.
Qed.

Lemma notify_add n s : notify n s = add_effects (notify_effects n s) (raise n s).
Proof.
  unfold notify_effects.
  destruct n; unfold notify, raise; rewrite callEvents_add;
    by rewrite new_effects_add.
Qed.

(** The flags and latches after one rule. *)
Lemma readiness_rule c n s :
  readiness (rule c n s) =
  [ _documentReady s; _connectionReady s; _globalSettingsReady s;
    _documentReadyInvoked s || (c && bool_decide (n = documentLoaded));
    _connectionReadyInvoked s || (c && bool_decide (n = connectionOpened));
    _globalSettingsInvoked s || (c && bool_decide (n = globalSettingsAvailable));
    _onReadyInvoked s || (c && bool_decide (n = setupReady)) ].
Proof.
  unfold rule. destruct c.
  - rewrite notify_add. unfold readiness.
    destruct n; simpl; by rewrite ?orb_true_r, ?orb_false_r.
  - unfold readiness. simpl. by rewrite !orb_false_r.
Qed.

Lemma handleReadyState_stages s :
  exists s1 s2 s3,
    s1 = rule (_connectionReady s && negb (_connectionReadyInvoked s))
           connectionOpened s
    /\ s2 = rule (_documentReady s1 && negb (_documentReadyInvoked s1))
              documentLoaded s1
    /\ s3 = rule (_globalSettingsReady s2 && negb (_globalSettingsInvoked s2))
              globalSettingsAvailable s2
    /\ _handleReadyState s
       = rule (_globalSettingsInvoked s3 && _documentReadyInvoked s3
               && _connectionReadyInvoked s3 && negb (_onReadyInvoked s3))
           setupReady s3.
Proof. do 3 eexists. repeat split. Qed.

(** What [_handleReadyState] makes of the flags and latches. *)
Lemma readiness_handleReadyState s :
  readiness (_handleReadyState s) =
  let di := _documentReadyInvoked s || _documentReady s in
  let ci := _connectionReadyInvoked s || _connectionReady s in
  let gi := _globalSettingsInvoked s || _globalSettingsReady s in
  [ _documentReady s; _connectionReady s; _globalSettingsReady s;
    di; ci; gi; _onReadyInvoked s || (gi && di && ci) ].
Proof.
  destruct (handleReadyState_stages s) as (s1 & s2 & s3 & H1 & H2 & H3 & ->).
  rewrite readiness_rule.
  apply (f_equal readiness) in H3. rewrite readiness_rule in H3.
  injection H3 as -> -> -> -> -> -> ->.
  apply (f_equal readiness) in H2. rewrite readiness_rule in H2.
  injection H2 as -> -> -> -> -> -> ->.
  apply (f_equal readiness) in H1. rewrite readiness_rule in H1.
  injection H1 as -> -> -> -> -> -> ->.
  cbv zeta. simpl.
  destruct (_documentReady s), (_connectionReady s), (_globalSettingsReady s),
    (_documentReadyInvoked s), (_connectionReadyInvoked s),
    (_globalSettingsInvoked s), (_onReadyInvoked s); reflexivity.
Qed.

(** [_handleReadyState] leaves nothing for a second run. *)
Lemma settled_handleReadyState s : settled (_handleReadyState s).
Proof.
  pose proof (readiness_handleReadyState s) as H. unfold readiness in H.
  cbv zeta in H. injection H as Hd Hc Hg Hdi Hci Hgi Hoi.
  unfold settled. rewrite Hd, Hc, Hg, Hdi, Hci, Hgi, Hoi.
  destruct (_documentReady s), (_connectionReady s), (_globalSettingsReady s),
    (_documentReadyInvoked s), (_connectionReadyInvoked s),
    (_globalSettingsInvoked s), (_onReadyInvoked s); simpl; tauto.
Qed.

(** Run where nothing is left to do, it does nothing at all. *)
Lemma handleReadyState_settled s : settled s -> _handleReadyState s = s.
Proof.
  intros (Hc & Hd & Hg & Ho).
  assert (E1 : _connectionReady s && negb (_connectionReadyInvoked s) = false).
  { destruct (_connectionReady s); [by rewrite Hc|done]. }
  assert (E2 : _documentReady s && negb (_documentReadyInvoked s) = false).
  { destruct (_documentReady s); [by rewrite Hd|done]. }
  assert (E3 : _globalSettingsReady s && negb (_globalSettingsInvoked s) = false).
  { destruct (_globalSettingsReady s); [by rewrite Hg|done]. }
  assert (E4 : _globalSettingsInvoked s && _documentReadyInvoked s
               && _connectionReadyInvoked s && negb (_onReadyInvoked s) = false).
  { destruct (_globalSettingsInvoked s), (_documentReadyInvoked s),
      (_connectionReadyInvoked s); try done. by rewrite Ho. }
  unfold _handleReadyState. rewrite E1. cbv zeta. rewrite E2, E3, E4. reflexivity.
Qed.

Lemma flags_handleReadyState s :
  _documentReady (_handleReadyState s) = _documentReady s
  /\ _connectionReady (_handleReadyState s) = _connectionReady s
  /\ _globalSettingsReady (_handleReadyState s) = _globalSettingsReady s.
Proof.
  pose proof (readiness_handleReadyState s) as H. unfold readiness in H.
  cbv zeta in H. by injection H as -> -> -> _ _ _ _.
Qed.

End HandleReadyState.

(** ** A small program logic for calls *)

Section Hoare.

Context {A B : Type}.
Implicit Types (P Q R : State -> Prop).

Lemma hoare_ret P R (a : A) : hoare P (mret a) P R.
Proof. intros s H. exact H. Qed.

Lemma hoare_throw P Q (e : exn) : hoare P (throw e : M A) Q P.
Proof. intros s H. exact H. Qed.

Lemma hoare_eval P (c : completion A) : hoare P (eval c) P P.
Proof. intros s H. unfold eval. by destruct c. Qed.

Lemma hoare_bind P Q Q' R (m : M A) (k : A -> M B) :
  hoare P m Q R -> (forall a, hoare Q (k a) Q' R) -> hoare P (m ≫= k) Q' R.
Proof.
  intros Hm Hk s H. specialize (Hm s H).
  unfold mbind, M_bind. destruct (m s) as [s' [a|e]]; [|done].
  by apply Hk.
Qed.

Lemma hoare_conseq P P' Q Q' R R' (m : M A) :
  hoare P' m Q' R' ->
  (forall s, P s -> P' s) -> (forall s, Q' s -> Q s) -> (forall s, R' s -> R s) ->
  hoare P m Q R.
Proof.
  intros Hm HP HQ HR s H. specialize (Hm s (HP s H)).
  destruct (m s) as [s' [a|e]]; auto.
Qed.

End Hoare.

Section HoareUnit.

Implicit Types (P Q R : State -> Prop).

Lemma hoare_lift P Q R (f : State -> State) :
  (forall s, P s -> Q (f s)) -> hoare P (lift f) Q R.
Proof. intros Hf s H. by apply Hf. Qed.

Lemma hoare_get {B} P Q R (k : State -> M B) :
  (forall s0, hoare (fun s => P s /\ s = s0) (k s0) Q R) ->
  hoare P (get ≫= k) Q R.
Proof. intros Hk s H. unfold mbind, M_bind, get. by apply (Hk s). Qed.

Lemma hoare_when P R (b : bool) (m : M unit) :
  hoare P m P R -> hoare P (when b m) P R.
Proof. intros Hm. destruct b; [exact Hm|]. apply hoare_ret. Qed.

Lemma hoare_for_of {A} P R (xs : list A) (body : A -> M unit) :
  (forall x, hoare P (body x) P R) -> hoare P (for_of xs body) P R.
Proof.
  intros Hb. induction xs as [|x xs IH]; simpl.
  - apply hoare_ret.
  - eapply hoare_bind; [apply Hb|]. intros _. exact IH.
Qed.

(** A call that leaves the view alone keeps every property of the view. *)
Lemma neutral_hoare {A} P (m : M A) : respects P -> neutral m -> hoare P m P P.
Proof.
  intros HP Hm s H. specialize (Hm s).
  destruct (m s) as [s' [a|e]]; simpl in Hm; by apply (HP s s').
Qed.

End HoareUnit.

(** ** Calls that leave the readiness state alone *)

Section Neutral.

Implicit Types (s : State).

Lemma view_add_effects l s :
  omap notification l = [] -> view (add_effects l s) = view s.
Proof.
  intros H. unfold view. rewrite notifications_add, H, app_nil_r. reflexivity.
Qed.

Lemma neutral_ret {A} (a : A) : neutral (mret a : M A).
Proof. intros s. reflexivity. Qed.

Lemma neutral_throw {A} (e : exn) : neutral (throw e : M A).
Proof. intros s. reflexivity. Qed.

Lemma neutral_eval {A} (c : completion A) : neutral (eval c).
Proof. intros s. reflexivity. Qed.

Lemma neutral_get : neutral get.
Proof. intros s. reflexivity. Qed.

Lemma neutral_lift (f : State -> State) :
  (forall s, view (f s) = view s) -> neutral (lift f).
Proof. intros H s. apply H. Qed.

Lemma neutral_bind {A B} (m : M A) (k : A -> M B) :
  neutral m -> (forall a, neutral (k a)) -> neutral (m ≫= k).
Proof.
  intros Hm Hk s. specialize (Hm s). unfold mbind, M_bind.
  destruct (m s) as [s' [a|e]]; simpl in *; [|done].
  by rewrite Hk.
Qed.

Lemma neutral_when (b : bool) (m : M unit) : neutral m -> neutral (when b m).
Proof. intros H. destruct b; [exact H|apply neutral_ret]. Qed.

Lemma neutral_for_of {A} (xs : list A) (body : A -> M unit) :
  (forall x, neutral (body x)) -> neutral (for_of xs body).
Proof.
  intros Hb. induction xs as [|x xs IH]; simpl.
  - apply neutral_ret.
  - apply neutral_bind; [apply Hb|]. intros _. exact IH.
Qed.

Lemma view_console msg s : view (console msg s) = view s.
Proof. rewrite console_add. by apply view_add_effects. Qed.

Lemma view_registerEvent eventName cb s : view (registerEvent eventName cb s) = view s.
Proof.
  unfold registerEvent.
  destruct (registeredEvents s !! eventName) as [cbs|] eqn:E.
  - by rewrite E.
  - simpl. by rewrite lookup_insert_eq.
Qed.

Lemma neutral_eventListener l actionName instance :
  neutral (eventListener l actionName instance).
Proof.
  unfold eventListener. destruct (negb _).
  - apply neutral_throw.
  - apply neutral_lift. intros s. apply view_registerEvent.
Qed.

Lemma neutral_WebSocket_send data : neutral (WebSocket_send data).
Proof.
  intros s. unfold WebSocket_send.
  destruct (_ws s) as [[u []]|]; try reflexivity.
  simpl. rewrite effect_add. by apply view_add_effects.
Qed.

Lemma neutral_send event data : neutral (send event data).
Proof.
  intros s. unfold send.
  set (s1 := if _debug s then _ else s).
  assert (H1 : view s1 = view s).
  { subst s1. destruct (_debug s); [apply view_console|done]. }
  destruct (_ws s1) as [w|] eqn:E.
  - by rewrite neutral_WebSocket_send.
  - simpl. destruct (_debug s1); [|exact H1].
    change (view (console ErrCouldNotSend s1) = view s).
    by rewrite view_console.
Qed.

Lemma neutral_requestGlobalSettings : neutral requestGlobalSettings.
Proof.
  unfold requestGlobalSettings. apply neutral_bind; [apply neutral_get|].
  intros s. apply neutral_send.
Qed.

(** A call of [callEvents] that is none of the four notifications. *)
Lemma view_callEvents eventName actionName params s :
  notification (Emit eventName (nullish actionName "*") params) = None ->
  view (callEvents eventName actionName params s) = view s.
Proof.
  intros H. unfold view.
  rewrite notifications_callEvents, readiness_callEvents, H. simpl.
  by rewrite app_nil_r.
Qed.

Lemma view_cacheGlobalSettings settings s :
  view (cacheGlobalSettings settings s) = view s.
Proof.
  unfold cacheGlobalSettings. rewrite effect_add.
  change (view (set_globalSettings settings ?x)) with (view x).
  by apply view_add_effects.
Qed.

End Neutral.

(** ** What every event of the loop preserves *)

Section Loop.

Variable P : State -> Prop.
Hypothesis P_view : respects P.
Hypothesis P_document :
  forall s, P s -> P (_handleReadyState (set_documentReady true s)).
Hypothesis P_connection :
  forall s, P s -> P (_handleReadyState (set_connectionReady true s)).
Hypothesis P_globalSettings :
  forall s, P s -> P (_handleReadyState (set_globalSettingsReady true s)).

Lemma hoare_neutral {A} (m : M A) (s0 : State) :
  neutral m -> hoare (fun s => P s /\ s = s0) m P P.
Proof.
  intros Hm. eapply hoare_conseq; [by apply neutral_hoare| |done..].
  by intros s [H _].
Qed.

Lemma hoare_lift_lift (f g : State -> State) :
  (forall s, P s -> P (g (f s))) ->
  hoare P (lift f ;; lift g) P P.
Proof. intros H s Hs. by apply H. Qed.

Lemma hoare_lift_lift_then (f g : State -> State) (k : M unit) :
  (forall s, P s -> P (g (f s))) -> hoare P k P P ->
  hoare P (lift f ;; lift g ;; k) P P.
Proof. intros H Hk s Hs. apply Hk. by apply H. Qed.

Lemma open_preserves : hoare P _open P P.
Proof.
  unfold _open. apply hoare_get; intros s0.
  eapply hoare_bind; [apply hoare_neutral, neutral_send|]. intros _.
  apply hoare_get; intros s1.
  eapply hoare_bind.
  - apply hoare_neutral, neutral_when, neutral_bind.
    + apply neutral_when, neutral_lift, view_console.
    + intros _. apply neutral_for_of, neutral_WebSocket_send.
  - intros _. apply hoare_lift_lift_then; [exact P_connection|].
    by apply neutral_hoare, neutral_requestGlobalSettings.
Qed.

Lemma eventHandler_preserves ev : hoare P (_eventHandler ev) P P.
Proof.
  unfold _eventHandler.
  eapply hoare_bind; [apply hoare_eval|]. intros eventData.
  apply hoare_get; intros s0.
  eapply hoare_bind.
  { apply hoare_neutral, neutral_when, neutral_lift, view_console. }
  intros _. eapply hoare_bind.
  - apply hoare_when.
    eapply hoare_bind; [apply hoare_eval|]. intros settings.
    eapply hoare_bind.
    + apply (neutral_hoare P); [done|]. apply neutral_lift.
      apply view_cacheGlobalSettings.
    + intros _. by apply hoare_lift_lift.
  - intros _. apply (neutral_hoare P); [done|]. apply neutral_lift.
    intros s. by apply view_callEvents.
Qed.

Lemma neutral_connect port uuid registerEvent info actionInfo :
  neutral (connectElgatoStreamDeckSocket port uuid registerEvent info actionInfo).
Proof.
  unfold connectElgatoStreamDeckSocket.
  do 3 (apply neutral_bind; [by apply neutral_lift|]; intros _).
  apply neutral_bind; [apply neutral_eval|]. intros parsed.
  apply neutral_bind; [by apply neutral_lift|]. intros _.
  apply neutral_bind; [|intros _; by apply neutral_lift].
  destruct actionInfo as [text|]; [|apply neutral_ret].
  apply neutral_when, neutral_lift. intros s. by apply view_callEvents.
Qed.

Lemma neutral_constructor _sd_events this : neutral (constructor _sd_events this).
Proof.
  unfold constructor. destruct _sd_events as [events|]; [|apply neutral_ret].
  apply neutral_for_of. intros l. apply neutral_eventListener.
Qed.

Lemma view_ws_becomes st s : view (ws_becomes st s) = view s.
Proof. unfold ws_becomes. by destruct (_ws s). Qed.

(** One event of the loop. *)
Lemma step_preserves op : hoare P (step op) P P.
Proof.
  destruct op; simpl.
  - by apply neutral_hoare, neutral_constructor.
  - by apply neutral_hoare, neutral_eventListener.
  - by apply neutral_hoare, neutral_lift.
  - by apply neutral_hoare, neutral_send.
  - by apply neutral_hoare, neutral_connect.
  - apply hoare_lift. exact P_document.
  - eapply hoare_bind; [|intros _; apply open_preserves].
    apply neutral_hoare; [done|]. apply neutral_lift, view_ws_becomes.
  - apply neutral_hoare; [done|].
    apply neutral_bind; [apply neutral_lift, view_ws_becomes|]. intros _.
    apply neutral_lift. intros s. by apply view_callEvents.
  - apply eventHandler_preserves.
Qed.

Lemma run_preserves ops s : P s -> P (run ops s).
Proof.
  revert s. induction ops as [|op ops IH]; intros s H; simpl; [done|].
  apply IH. pose proof (step_preserves op s H) as Hs.
  by destruct (step op s) as [s' [[]|e]].
Qed.

End Loop.

(** ** The invariant of the readiness coordinator *)

Section Invariant.

Implicit Types (s : State).

Lemma view_projections s s' :
  view s = view s' ->
  readiness s = readiness s' /\ notifications s = notifications s'.
Proof. unfold view. intros [= H1 H2]. split; [|done]. unfold readiness. congruence. Qed.

Lemma latch_readiness s s' n : readiness s = readiness s' -> latch n s = latch n s'.
Proof. unfold readiness. intros [= ? ? ? ? ? ? ?]. by destruct n. Qed.

Lemma latched_respects : respects latched.
Proof.
  intros s s' [Hr Hn]%view_projections (Hcount & Hall & Hord).
  unfold latched. rewrite <- Hn. split; [|split].
  - intros n. rewrite <- (latch_readiness s s' n Hr). apply Hcount.
  - rewrite <- (latch_readiness s s' _ Hr). intros H n.
    rewrite <- (latch_readiness s s' n Hr). by apply Hall.
  - exact Hord.
Qed.

Lemma settled_respects : respects settled.
Proof.
  intros s s' [Hr _]%view_projections. unfold readiness in Hr.
  injection Hr as Hd Hc Hg Hdi Hci Hgi Hoi.
  unfold settled. by rewrite Hd, Hc, Hg, Hdi, Hci, Hgi, Hoi.
Qed.

Lemma invariant_respects : respects invariant.
Proof.
  intros s s' Hv [H1 H2]. split.
  - by apply (latched_respects s s').
  - by apply (settled_respects s s').
Qed.

Lemma latched_flags s s' :
  notifications s = notifications s' ->
  (forall n, latch n s = latch n s') ->
  latched s -> latched s'.
Proof.
  intros Hn Hl (Hcount & Hall & Hord). unfold latched. rewrite <- Hn.
  split; [|split]; [| |done].
  - intros n. rewrite <- Hl. apply Hcount.
  - rewrite <- Hl. intros H n. rewrite <- Hl. by apply Hall.
Qed.

(** Setting a flag and evaluating re-establishes the invariant. *)
Lemma invariant_trigger (set : State -> State) s :
  notifications s = notifications (set s) ->
  (forall n, latch n s = latch n (set s)) ->
  invariant s -> invariant (_handleReadyState (set s)).
Proof.
  intros Hn Hl [H _]. split.
  - apply latched_handleReadyState. by apply (latched_flags s).
  - apply settled_handleReadyState.
Qed.

Lemma invariant_initial : invariant initial.
Proof.
  split; [split; [|split]|].
  - by intros [].
  - done.
  - intros pre post H. by destruct pre.
  - by repeat split.
Qed.

Lemma invariant_run ops s : invariant s -> invariant (run ops s).
Proof.
  apply run_preserves.
  - exact invariant_respects.
  - intros s0. apply invariant_trigger; [done|by intros []].
  - intros s0. apply invariant_trigger; [done|by intros []].
  - intros s0. apply invariant_trigger; [done|by intros []].
Qed.

Lemma invariant_reachable s : reachable s -> invariant s.
Proof. intros [ops ->]. apply invariant_run, invariant_initial. Qed.

(** Setting a flag that is true already changes nothing. *)
Lemma set_documentReady_id s : _documentReady s = true -> set_documentReady true s = s.
Proof. destruct s; simpl. by intros ->. Qed.

Lemma set_connectionReady_id s :
  _connectionReady s = true -> set_connectionReady true s = s.
Proof. destruct s; simpl. by intros ->. Qed.

Lemma set_globalSettingsReady_id s :
  _globalSettingsReady s = true -> set_globalSettingsReady true s = s.
Proof. destruct s; simpl. by intros ->. Qed.



Lemma emitted_callEvents eventName actionName params s :
  emitted (callEvents eventName actionName params s)
  = emitted s ++ [(eventName, nullish actionName "*", params)].
Proof.
  rewrite callEvents_add. unfold emitted, add_effects. simpl.
  rewrite omap_app, omap_cons. simpl. f_equal. f_equal.
  generalize (subscribers_quiet eventName (nullish actionName "*") params s).
  induction 1 as [|e l He _ IH]; [done|].
  destruct e; simpl in *; done.
Qed.

End Invariant.

(** * The claims *)

(** C1. Whatever events the loop has run, and so in whatever order the three
    readiness flags became true: each of the four lifecycle notifications has
    been emitted at most once; every [setupReady] comes after
    [connectionOpened], [documentLoaded] and [globalSettingsAvailable];
    running [_handleReadyState] again changes nothing, so emits nothing; and
    triggering a flag that is true already (setting it and evaluating)
    changes nothing either. *)
Theorem C1_lifecycle_notifications_once (ops : list Op) :
  let s := run ops initial in
  (forall n, count n (notifications s) <= 1)
  /\ ordered (notifications s)
  /\ _handleReadyState s = s
  /\ (_documentReady s = true -> documentReady_callback s = s)
  /\ (_connectionReady s = true ->
      _handleReadyState (set_connectionReady true s) = s)
  /\ (_globalSettingsReady s = true ->
      _handleReadyState (set_globalSettingsReady true s) = s).
Proof.
  intros s.
  destruct (invariant_run ops initial invariant_initial)
    as [(Hcount & _ & Hord) Hset]. fold s in Hcount, Hord, Hset.
  pose proof (handleReadyState_settled s Hset) as Hid.
  split; [|split; [|split; [|split; [|split]]]].
  - intros n. rewrite Hcount. destruct (latch n s); lia.
  - exact Hord.
  - exact Hid.
  - intros H. unfold documentReady_callback. by rewrite set_documentReady_id.
  - intros H. by rewrite set_connectionReady_id.
  - intros H. by rewrite set_globalSettingsReady_id.
Qed.

(** The six orders in which the document can become ready, the socket open
    and the global settings arrive, after the host has connected: each of
    the four notifications is emitted exactly once, [setupReady] last. *)
Lemma readiness_six_orders (order : list Op) :
  order ≡ₚ [DocReady; WsOpen;
            WsMessage (mkMessageEvent
                         (Encoded (mkFrame "didReceiveGlobalSettings" None
                                     (JObj [("settings", JObj [])]))))] ->
  let l := notifications
             (run (Connect "28196" "uuid" "registerPlugin" (Some JNull) None
                     :: order) initial) in
  (forall n, count n l = 1) /\ last l = Some setupReady.
Proof.
  intros H. symmetry in H. apply permutations_Permutation in H. simpl in H.
  repeat (apply elem_of_cons in H as [->|H];
          [split; [intros []; by vm_compute | by vm_compute]|]).
  by apply elem_of_nil in H.
Qed.

(** The same, seen at work: the document has become ready once, and a second
    run of its callback leaves the state as it is. *)
Lemma C1_witness :
  documentReady_callback (run [DocReady] initial) = run [DocReady] initial.
Proof.
  apply (C1_lifecycle_notifications_once [DocReady]). reflexivity.
Defined.



(** ** What the queue does deliver *)

Section Queue.

Implicit Types (s : State) (l : list text).

Lemma sent_refl s : sent [] s s.
Proof. unfold sent. by rewrite app_nil_r. Qed.

Lemma sent_trans l1 l2 s1 s2 s3 :
  sent l1 s1 s2 -> sent l2 s2 s3 -> sent (l1 ++ l2) s1 s3.
Proof.
  unfold sent. intros (?&?&?&?&?&E1) (?&?&?&?&?&E2).
  rewrite E2, E1, app_assoc. repeat split; congruence.
Qed.

Lemma sent_add (effects : list Effect) s :
  sent (omap (fun e => match e with Transmit t => Some t | _ => None end) effects)
       s (add_effects effects s).
Proof. unfold sent. rewrite transmitted_add. by repeat split. Qed.

Lemma sent_console msg s : sent [] s (console msg s).
Proof. apply (sent_add [Console msg]). Qed.

Lemma sent_callEvents eventName actionName params s :
  sent [] s (callEvents eventName actionName params s).
Proof.
  rewrite callEvents_add.
  pose proof (sent_add (Emit eventName (nullish actionName "*") params
                          :: subscribers_effects eventName
                               (nullish actionName "*") params s) s) as H.
  rewrite omap_cons in H. simpl in H.
  by rewrite quiet_no_transmit in H by apply subscribers_quiet.
Qed.

Lemma sent_rule c n s : sent [] s (rule c n s).
Proof.
  unfold rule. destruct c; [|apply sent_refl].
  destruct n; unfold notify;
    (eapply (sent_trans [] []); [|apply sent_callEvents]); by repeat split;
    rewrite ?app_nil_r.
Qed.

Lemma sent_handleReadyState s : sent [] s (_handleReadyState s).
Proof.
  destruct (handleReadyState_stages s) as (s1 & s2 & s3 & -> & -> & -> & ->).
  repeat (eapply (sent_trans [] []); [|apply sent_rule]). apply sent_refl.
Qed.

Lemma sent_is_open l s s' : sent l s s' -> is_open s -> is_open s'.
Proof. intros (_ & _ & _ & Hw & _) (w & H1 & H2). exists w. by rewrite Hw. Qed.

Lemma WebSocket_send_open (t : text) s :
  is_open s ->
  snd (WebSocket_send t s) = Normal tt /\ sent [t] s (fst (WebSocket_send t s)).
Proof.
  intros (w & Hw & Ho). unfold WebSocket_send. rewrite Hw, Ho. simpl.
  split; [done|]. apply (sent_add [Transmit t]).
Qed.

Lemma send_open event data s :
  is_open s ->
  snd (send event data s) = Normal tt
  /\ sent [outgoing event data] s (fst (send event data s)).
Proof.
  intros Hopen. unfold send.
  set (s0 := if _debug s then _ else s).
  assert (H0 : sent [] s s0).
  { subst s0. destruct (_debug s); [apply sent_console|apply sent_refl]. }
  pose proof (sent_is_open _ _ _ H0 Hopen) as Hopen0.
  destruct Hopen0 as (w & Hw & Ho). rewrite Hw.
  destruct (WebSocket_send_open (outgoing event data) s0) as [E1 E2].
  { by exists w. }
  split; [exact E1|]. apply (sent_trans [] [_] s s0); done.
Qed.

Lemma for_of_open (xs : list text) s :
  is_open s ->
  snd (for_of xs WebSocket_send s) = Normal tt
  /\ sent xs s (fst (for_of xs WebSocket_send s)).
Proof.
  revert s. induction xs as [|x xs IH]; intros s Hopen; simpl.
  - split; [done|apply sent_refl].
  - destruct (WebSocket_send_open x s Hopen) as [E1 E2].
    unfold mbind, M_bind. destruct (WebSocket_send x s) as [s1 r]. simpl in *.
    subst r. destruct (IH s1) as [E3 E4]; [by eapply sent_is_open|].
    split; [done|]. by apply (sent_trans [x] xs s s1).
Qed.

Lemma bind_normal {A B} (m : M A) (k : A -> M B) s s1 (a : A) :
  m s = (s1, Normal a) -> (m ≫= k) s = k a s1.
Proof. intros H. unfold mbind, M_bind. by rewrite H. Qed.

Lemma normal_pair {A} (m : M A) s (a : A) :
  snd (m s) = Normal a -> m s = (fst (m s), Normal a).
Proof. destruct (m s) as [s1 r]. simpl. by intros ->. Qed.

(** The loop of [_open] over the queue. *)
Lemma flush_open s :
  is_open s ->
  exists s2,
    when (1 <=? length (_cachedEvents s))
      (when (_debug s) (lift (console (LogResending (_cachedEvents s)))) ;;
       for_of (_cachedEvents s) WebSocket_send) s = (s2, Normal tt)
    /\ sent (_cachedEvents s) s s2.
Proof.
  intros Hopen. destruct (_cachedEvents s) as [|c cs] eqn:Ec.
  - exists s. split; [done|apply sent_refl].
  - change (1 <=? length (c :: cs)) with true. unfold when at 1.
    set (s' := if _debug s then console (LogResending (c :: cs)) s else s).
    assert (H1 : sent [] s s').
    { subst s'. destruct (_debug s); [apply sent_console|apply sent_refl]. }
    assert (Hw : when (_debug s) (lift (console (LogResending (c :: cs)))) s
                 = (s', Normal tt)).
    { subst s'. by destruct (_debug s). }
    rewrite (bind_normal _ _ _ _ _ Hw).
    destruct (for_of_open (c :: cs) s') as [E3 E4]; [by eapply sent_is_open|].
    exists (fst (for_of (c :: cs) WebSocket_send s')). split.
    + by apply normal_pair.
    + by apply (sent_trans [] (c :: cs) s s').
Qed.

(** [_open] on an open socket: the registration frame, then the queue in
    order, then the request for the global settings. *)
Lemma open_sends s :
  is_open s ->
  snd (_open s) = Normal tt
  /\ sent ([outgoing (of_option (_registerEvent s)) [("uuid", of_option (_uuid s))]]
           ++ _cachedEvents s
           ++ [outgoing (JStr "getGlobalSettings")
                 [("context", of_option (_uuid s))]])
          s (fst (_open s)).
Proof.
  intros Hopen. unfold _open.
  rewrite (bind_normal get _ s s s) by reflexivity.
  destruct (send_open (of_option (_registerEvent s))
              [("uuid", of_option (_uuid s))] s Hopen) as [E1 E2].
  rewrite (bind_normal _ _ _ _ _ (normal_pair _ _ _ E1)).
  set (s1 := fst (send _ _ s)) in *.
  rewrite (bind_normal get _ s1 s1 s1) by reflexivity.
  pose proof (sent_is_open _ _ _ E2 Hopen) as Hopen1.
  destruct (flush_open s1 Hopen1) as (s2 & Hflush & E3).
  rewrite (bind_normal _ _ _ _ _ Hflush).
  rewrite (bind_normal (lift (set_connectionReady true)) _ s2
             (set_connectionReady true s2) tt) by reflexivity.
  rewrite (bind_normal (lift _handleReadyState) _ _
             (_handleReadyState (set_connectionReady true s2)) tt) by reflexivity.
  set (s3 := _handleReadyState (set_connectionReady true s2)).
  assert (E4 : sent [] s2 s3).
  { subst s3. eapply (sent_trans [] []); [|apply sent_handleReadyState].
    unfold sent. rewrite app_nil_r. by repeat split. }
  pose proof (sent_is_open _ _ _ E3 Hopen1) as Hopen2.
  pose proof (sent_is_open _ _ _ E4 Hopen2) as Hopen3.
  unfold requestGlobalSettings.
  rewrite (bind_normal get _ s3 s3 s3) by reflexivity.
  destruct (send_open (JStr "getGlobalSettings")
              [("context", of_option (_uuid s3))] s3 Hopen3) as [E5 E6].
  split; [exact E5|].
  assert (Hu : _uuid s3 = _uuid s).
  { destruct E2 as (?&Hu1&?), E3 as (?&Hu2&?), E4 as (?&Hu3&?). congruence. }
  assert (Hc : _cachedEvents s1 = _cachedEvents s) by apply E2.
  rewrite Hu in E6 |- *. rewrite <- Hc.
  eapply (sent_trans [_] _ s s1); [exact E2|].
  eapply (sent_trans _ [_] s1 s3); [|exact E6].
  rewrite <- (app_nil_r (_cachedEvents s1)).
  by eapply (sent_trans _ [] s1 s2).
Qed.

End Queue.

Section Delivery.

Implicit Types (s : State) (m : Message).

Lemma run_app (ops1 ops2 : list Op) s : run (ops1 ++ ops2) s = run ops2 (run ops1 s).
Proof. unfold run. apply fold_left_app. Qed.

Lemma transmitted_console msg s : transmitted (console msg s) = transmitted s.
Proof. rewrite console_add, transmitted_add. simpl. by rewrite app_nil_r. Qed.

(** Without a handle, a message goes to the end of the queue. *)
Lemma send_queued event data s :
  _ws s = None ->
  let s' := fst (send event data s) in
  snd (send event data s) = Normal tt
  /\ _ws s' = None
  /\ _cachedEvents s' = _cachedEvents s ++ [outgoing event data]
  /\ transmitted s' = transmitted s.
Proof.
  intros Hw. unfold send.
  destruct (_debug s) eqn:Ed; simpl; rewrite Hw; simpl; rewrite ?Ed; simpl;
    repeat split; try done;
    unfold transmitted; simpl; rewrite ?omap_app; simpl;
    by rewrite ?app_nil_r.
Qed.

Lemma sends_queued (msgs : list Message) s :
  _ws s = None ->
  let s' := run (map send_op msgs) s in
  _ws s' = None
  /\ _cachedEvents s' = _cachedEvents s ++ map frame_of msgs
  /\ transmitted s' = transmitted s.
Proof.
  revert s. induction msgs as [|m msgs IH]; intros s Hw; simpl.
  - by rewrite app_nil_r.
  - destruct (send_queued (JStr (fst m)) (snd m) s Hw) as (_ & H1 & H2 & H3).
    destruct (IH _ H1) as (H4 & H5 & H6).
    split; [exact H4|]. split; [|congruence].
    rewrite H5, H2, <- app_assoc. reflexivity.
Qed.

(** With the socket open, every message goes out at once. *)
Lemma sends_open (msgs : list Message) s :
  is_open s -> sent (map frame_of msgs) s (run (map send_op msgs) s).
Proof.
  revert s. induction msgs as [|m msgs IH]; intros s Hopen; simpl.
  - apply sent_refl.
  - destruct (send_open (JStr (fst m)) (snd m) s Hopen) as [_ H].
    apply (sent_trans [frame_of m] (map frame_of msgs) s _ _ H).
    apply IH. by eapply sent_is_open.
Qed.

(** The host connects: a socket is made and nothing is transmitted yet. *)
Lemma connect_socket port uuid registerEvent (info : value) actionInfo s :
  let s' := fst (step (Connect port uuid registerEvent (Some info) actionInfo) s) in
  (exists u, _ws s' = Some (mkWebSocket u CONNECTING))
  /\ _uuid s' = Some uuid /\ _registerEvent s' = Some registerEvent
  /\ _cachedEvents s' = _cachedEvents s
  /\ transmitted s' = transmitted s.
Proof.
  simpl. unfold connectElgatoStreamDeckSocket, mbind, M_bind, lift, eval. simpl.
  destruct actionInfo as [text|]; simpl.
  - destruct (negb (not_str text)); simpl.
    + match goal with
      | |- context [callEvents ?e ?a ?p ?x] =>
          pose proof (sent_callEvents e a p x) as (_ & Hu & Hr & _ & Hc & Ht)
      end.
      rewrite app_nil_r in Ht. simpl in Hu, Hr, Hc, Ht.
      repeat split; eauto.
    + repeat split; eauto.
  - repeat split; eauto.
Qed.

(** Messages sent before the host has connected are queued; when the socket
    opens, the registration frame goes out first, then the queue in the
    order of the calls, then the request for the global settings; messages
    sent after that follow, in order. *)
Theorem queued_then_flushed (before later : list Message)
    (port uuid registerEvent : string) (info : value)
    (actionInfo : option string) (s : State) :
  _ws s = None ->
  transmitted
    (run (map send_op before
          ++ [Connect port uuid registerEvent (Some info) actionInfo; WsOpen]
          ++ map send_op later) s)
  = transmitted s
    ++ [outgoing (JStr registerEvent) [("uuid", JStr uuid)]]
    ++ (_cachedEvents s ++ map frame_of before)
    ++ [outgoing (JStr "getGlobalSettings") [("context", JStr uuid)]]
    ++ map frame_of later.
Proof.
  intros Hw. rewrite !run_app.
  destruct (sends_queued before s Hw) as (_ & Hq & Ht).
  set (s1 := run (map send_op before) s) in *.
  change (run [Connect port uuid registerEvent (Some info) actionInfo; WsOpen] s1)
    with (fst (step WsOpen
                 (fst (step (Connect port uuid registerEvent (Some info) actionInfo)
                         s1)))).
  destruct (connect_socket port uuid registerEvent info actionInfo s1)
    as ((u & Hws) & Hu & Hr & Hc & Ht2).
  set (s2 := fst (step (Connect _ _ _ _ _) s1)) in *.
  assert (Hstep : fst (step WsOpen s2) = fst (_open (ws_becomes OPEN s2))) by done.
  rewrite Hstep.
  set (s3 := ws_becomes OPEN s2).
  assert (Hopen : is_open s3).
  { subst s3. unfold ws_becomes. rewrite Hws. by eexists. }
  assert (H3 : _uuid s3 = Some uuid /\ _registerEvent s3 = Some registerEvent
               /\ _cachedEvents s3 = _cachedEvents s2
               /\ transmitted s3 = transmitted s2).
  { subst s3. unfold ws_becomes. by rewrite Hws. }
  destruct H3 as (Hu3 & Hr3 & Hc3 & Ht3).
  destruct (open_sends s3 Hopen) as [_ Hsent].
  rewrite Hu3, Hr3, Hc3, Hc, Hq in Hsent. simpl of_option in Hsent.
  pose proof (sends_open later _ (sent_is_open _ _ _ Hsent Hopen)) as Hlater.
  destruct (sent_trans _ _ _ _ _ Hsent Hlater) as (_ & _ & _ & _ & _ & E).
  rewrite E, Ht3, Ht2, Ht. by rewrite <- !app_assoc.
Qed.

End Delivery.

(** ** The outgoing queue *)



(** C2 at its failing input. The host has connected and the socket is still
    connecting when a message is sent: [send] finds the handle, the socket
    throws, and the message is not queued. When the socket opens, the
    registration frame and the request for the global settings go out; the
    message never does. *)
Theorem C2_message_lost_while_connecting :
  let connect := Connect "28196" "uuid" "registerPlugin" (Some JNull) None in
  let s := run [connect] initial in
  let message := JSON_stringify (JObj [("event", JStr "logMessage");
                                       ("payload", JStr "hello")]) in
  step (Send "logMessage" [("payload", JStr "hello")]) s = (s, Throw InvalidStateError)
  /\ transmitted (run [connect; Send "logMessage" [("payload", JStr "hello")];
                       WsOpen] initial)
     = [ JSON_stringify (JObj [("event", JStr "registerPlugin");
                               ("uuid", JStr "uuid")]);
         JSON_stringify (JObj [("event", JStr "getGlobalSettings");
                               ("context", JStr "uuid")]) ]
  /\ message ∉ transmitted (run [connect;
                                 Send "logMessage" [("payload", JStr "hello")];
                                 WsOpen] initial).
Proof.
  cbv zeta. split; [by vm_compute|].
  match goal with
  | |- ?l = ?r /\ _ => assert (E : l = r) by (by vm_compute)
  end.
  split; [exact E|]. rewrite E. unfold JSON_stringify. simpl. intros H.
  apply elem_of_cons in H as [H|H]; [discriminate H|].
  apply elem_of_cons in H as [H|H]; [discriminate H|].
  by apply elem_of_nil in H.
Qed.

(** ** Routing by action *)

Section Routing.

Implicit Types (s : State) (cb : Callback).




Lemma callbacks_for_registerEvent eventName cb s :
  callbacks_for eventName (registerEvent eventName cb s)
  = callbacks_for eventName s ++ [cb].
Proof.
  unfold callbacks_for, registerEvent.
  destruct (registeredEvents s !! eventName) as [cbs|] eqn:E.
  - rewrite E. simpl. by rewrite lookup_insert_eq.
  - simpl. rewrite lookup_insert_eq. simpl. by rewrite lookup_insert_eq.
Qed.


End Routing.




(** ** The inbound frame handler *)

Section EventHandler.

Implicit Types (s : State) (n : Notification).

Lemma apart_refl s : apart s s.
Proof. by repeat split. Qed.

Lemma apart_trans s1 s2 s3 : apart s1 s2 -> apart s2 s3 -> apart s1 s3.
Proof.
  unfold apart. intros (?&?&?&?&?&?&?&?) (?&?&?&?&?&?&?&?).
  repeat split; congruence.
Qed.

Lemma quiet_no_cache_write l :
  Forall quiet l ->
  omap (fun e => match e with CacheGlobalSettings v => Some v | _ => None end) l
  = [].
Proof.
  induction 1 as [|e l He _ IH]; [done|].
  destruct e; simpl in *; done.
Qed.

Lemma apart_callEvents eventName actionName params s :
  apart s (callEvents eventName actionName params s).
Proof.
  rewrite callEvents_add. unfold apart, transmitted, cache_writes, add_effects.
  simpl. rewrite !omap_app, !omap_cons. simpl.
  pose proof (subscribers_quiet eventName (nullish actionName "*") params s) as Hq.
  rewrite (quiet_no_transmit _ Hq), (quiet_no_cache_write _ Hq).
  by rewrite !app_nil_r.
Qed.

Lemma apart_rule c n s : apart s (rule c n s).
Proof.
  unfold rule. destruct c; [|apply apart_refl].
  destruct n; unfold notify;
    (eapply apart_trans; [|apply apart_callEvents]); by repeat split.
Qed.

Lemma apart_handleReadyState s : apart s (_handleReadyState s).
Proof.
  destruct (handleReadyState_stages s) as (s1 & s2 & s3 & -> & -> & -> & ->).
  repeat (eapply apart_trans; [|apply apart_rule]). apply apart_refl.
Qed.

(** The handler on a frame that parses, written out. *)
Lemma eventHandler_encoded frame s :
  let s0 := if _debug s then console (LogReceive (event frame) frame) s else s in
  let forward :=
    callEvents (event frame) (Some (nullish (action frame) "*")) [PFrame frame] in
  _eventHandler (mkMessageEvent (Encoded frame)) s =
  if String.eqb (event frame) "didReceiveGlobalSettings" then
    match dot_settings (payload frame) with
    | Normal settings =>
        (forward (_handleReadyState
                    (set_globalSettingsReady true
                       (cacheGlobalSettings settings s0))), Normal tt)
    | Throw e => (s0, Throw e)
    end
  else (forward s0, Normal tt).
Proof.
  unfold _eventHandler, mbind, M_bind, eval, get, when, lift, mret, M_ret.
  simpl.
  destruct (_debug s); simpl;
    destruct (String.eqb (event frame) "didReceiveGlobalSettings"); simpl;
    try reflexivity;
    by destruct (dot_settings (payload frame)).
Qed.

End EventHandler.

Section Settings.

Implicit Types (s : State).

Lemma cache_writes_console msg s : cache_writes (console msg s) = cache_writes s.
Proof. unfold cache_writes, console, effect. simpl. rewrite omap_app. simpl. by rewrite app_nil_r. Qed.

(** After the settings have been cached, the flag set and the readiness
    evaluated, and after the frame has been forwarded. *)
Lemma settings_arrival settings frame s :
  let s1 := _handleReadyState
              (set_globalSettingsReady true (cacheGlobalSettings settings s)) in
  let s2 := callEvents (event frame) (Some (nullish (action frame) "*"))
              [PFrame frame] s1 in
  _globalSettingsReady s1 = true
  /\ globalSettings s1 = settings /\ globalSettings s2 = settings
  /\ cache_writes s1 = cache_writes s ++ [settings]
  /\ cache_writes s2 = cache_writes s ++ [settings].
Proof.
  intros s1 s2.
  pose proof (apart_handleReadyState
                (set_globalSettingsReady true (cacheGlobalSettings settings s)))
    as (_ & _ & _ & _ & _ & Hg & _ & Hc).
  fold s1 in Hg, Hc.
  pose proof (apart_callEvents (event frame) (Some (nullish (action frame) "*"))
                [PFrame frame] s1) as (_ & _ & _ & _ & _ & Hg2 & _ & Hc2).
  fold s2 in Hg2, Hc2.
  destruct (flags_handleReadyState
              (set_globalSettingsReady true (cacheGlobalSettings settings s)))
    as (_ & _ & Hf).
  fold s1 in Hf.
  assert (Hw : cache_writes
                 (set_globalSettingsReady true (cacheGlobalSettings settings s))
               = cache_writes s ++ [settings]).
  { unfold cache_writes, cacheGlobalSettings, effect. simpl. by rewrite omap_app. }
  simpl in Hf, Hg. rewrite Hg2, Hc2, Hc, Hg, Hf, Hw. by repeat split.
Qed.

End Settings.

(** C5 (as amended). A frame that is not the reserved one is forwarded as
    [callEvents(frame.event, frame.action ?? '*', frame)] and nothing else
    happens. A reserved frame whose payload is there (neither absent nor
    null) has [payload.settings] handed to the settings cache and
    [globalSettingsReady] set, and the readiness evaluated, before it is
    forwarded in the same way. However many such frames arrive,
    [globalSettingsAvailable] is emitted at most once. *)
Theorem C5_inbound_frame (frame : InboundFrame) (s : State) :
  let ev := mkMessageEvent (Encoded frame) in
  let s0 := if _debug s then console (LogReceive (event frame) frame) s else s in
  let forward :=
    callEvents (event frame) (Some (nullish (action frame) "*")) [PFrame frame] in
  (event frame <> "didReceiveGlobalSettings" ->
   _eventHandler ev s = (forward s0, Normal tt))
  /\ (event frame = "didReceiveGlobalSettings" ->
      forall settings, dot_settings (payload frame) = Normal settings ->
      let s1 := _handleReadyState
                  (set_globalSettingsReady true (cacheGlobalSettings settings s0)) in
      _eventHandler ev s = (forward s1, Normal tt)
      /\ _globalSettingsReady s1 = true
      /\ globalSettings s1 = settings
      /\ cache_writes s1 = cache_writes s ++ [settings])
  /\ (forall ops,
      count globalSettingsAvailable (notifications (run ops initial)) <= 1).
Proof.
  intros ev s0 forward. split; [|split].
  - intros Hne. subst ev. rewrite eventHandler_encoded.
    apply String.eqb_neq in Hne. by rewrite Hne.
  - intros He settings Hs s1. subst ev. rewrite eventHandler_encoded.
    apply String.eqb_eq in He. rewrite He, Hs.
    destruct (settings_arrival settings frame s0) as (H1 & H2 & _ & H3 & _).
    subst s1. repeat split; try done.
    rewrite H3. f_equal. subst s0. destruct (_debug s); [|done].
    apply cache_writes_console.
  - intros ops.
    destruct (invariant_run ops initial invariant_initial) as [(Hcount & _) _].
    rewrite Hcount. destruct (latch _ _); lia.
Qed.

(** Global settings arrive at a fresh handler. *)
Lemma C5_witness :
  _globalSettingsReady
    (_handleReadyState
       (set_globalSettingsReady true
          (cacheGlobalSettings (JObj [("volume", JNum 3)]) initial))) = true.
Proof.
  refine (proj1 (proj2 (proj1 (proj2
    (C5_inbound_frame
       (mkFrame "didReceiveGlobalSettings" None
          (JObj [("settings", JObj [("volume", JNum 3)])])) initial))
    _ (JObj [("volume", JNum 3)]) _))); reflexivity.
Defined.

(** C5, as the claim has it, fails: a reserved frame without a payload makes
    the handler throw on [payload.settings]; the flag is not set and the
    frame is not forwarded. *)
Lemma C5_counterexample :
  let frame := mkFrame "didReceiveGlobalSettings" None JUndefined in
  let result := _eventHandler (mkMessageEvent (Encoded frame)) initial in
  snd result = Throw TypeError
  /\ _globalSettingsReady (fst result) = false
  /\ emitted (fst result) = [].
Proof. by vm_compute. Qed.

(** C10 (as amended). On every receipt of the reserved frame whose payload
    is there (neither absent nor null), whatever the state and so whether or
    not [globalSettingsAvailable] has been emitted already,
    [payload.settings] is handed to the settings cache, which then holds
    it. *)
Theorem C10_cache_written_on_every_receipt (frame : InboundFrame)
    (settings : value) (s : State) :
  event frame = "didReceiveGlobalSettings" ->
  dot_settings (payload frame) = Normal settings ->
  let result := _eventHandler (mkMessageEvent (Encoded frame)) s in
  snd result = Normal tt
  /\ cache_writes (fst result) = cache_writes s ++ [settings]
  /\ globalSettings (fst result) = settings.
Proof.
  intros He Hs result. subst result. rewrite eventHandler_encoded.
  apply String.eqb_eq in He. rewrite He, Hs. simpl.
  set (s0 := if _debug s then _ else s).
  destruct (settings_arrival settings frame s0) as (_ & _ & H2 & _ & H4).
  repeat split; try done.
  rewrite H4. f_equal. subst s0. destruct (_debug s); [|done].
  apply cache_writes_console.
Qed.

(** The second delivery, after [globalSettingsAvailable] has been emitted:
    the cache takes the new settings. *)
Lemma C10_witness :
  let first := mkFrame "didReceiveGlobalSettings" None
                 (JObj [("settings", JNum 1)]) in
  let second := mkFrame "didReceiveGlobalSettings" None
                  (JObj [("settings", JNum 2)]) in
  let s := run [WsMessage (mkMessageEvent (Encoded first))] initial in
  _globalSettingsInvoked s = true
  /\ globalSettings (fst (_eventHandler (mkMessageEvent (Encoded second)) s))
     = JNum 2.
Proof.
  cbv zeta. split; [by vm_compute|].
  refine (proj2 (proj2
    (C10_cache_written_on_every_receipt
       (mkFrame "didReceiveGlobalSettings" None (JObj [("settings", JNum 2)]))
       (JNum 2) _ _ _))); reflexivity.
Defined.

(** C10, as the claim has it, fails: a reserved frame without a payload,
    here the second receipt, makes the handler throw on [payload.settings]
    before the cache is called; nothing is handed to the cache, which keeps
    the settings of the first receipt. *)
Lemma C10_counterexample :
  let first := mkFrame "didReceiveGlobalSettings" None
                 (JObj [("settings", JNum 1)]) in
  let bare := mkFrame "didReceiveGlobalSettings" None JUndefined in
  let s := run [WsMessage (mkMessageEvent (Encoded first))] initial in
  let result := _eventHandler (mkMessageEvent (Encoded bare)) s in
  snd result = Throw TypeError
  /\ cache_writes s = [JNum 1]
  /\ cache_writes (fst result) = [JNum 1]
  /\ globalSettings (fst result) = JNum 1.
Proof. by vm_compute. Qed.

(** ** Subscription set-up *)

(** C8. Called with a filter that is not a string, the listener throws
    [IllegalArgumentError] and the state, the subscription table with it, is
    what it was. Called with a string, it does not throw, and the callback is
    the last of those registered for the event. *)
Theorem C8_filter_must_be_string (l : EventListener) (actionName : value)
    (instance : nat) (s : State) :
  ((forall name, actionName <> JStr name) ->
   eventListener l actionName instance s
   = (s, Throw (IllegalArgumentError
                  ("actionName needs to be of type string but "
                     +:+ typeof actionName +:+ " given."))))
  /\ (forall name,
      snd (eventListener l (JStr name) instance s) = Normal tt
      /\ callbacks_for (el_event l) (fst (eventListener l (JStr name) instance s))
         = callbacks_for (el_event l) s
           ++ [mkCallback (el_event l) name instance (el_descriptor l)]).
Proof.
  split.
  - intros Hne. unfold eventListener.
    destruct actionName; try reflexivity. by destruct (Hne s0).
  - intros name. unfold eventListener. simpl. split; [done|].
    apply callbacks_for_registerEvent.
Qed.

(** A number as filter. *)
Lemma C8_witness :
  eventListener (mkListener "keyDown" 7) (JNum 3) 1 initial
  = (initial,
     Throw (IllegalArgumentError
              "actionName needs to be of type string but number given.")).
Proof.
  refine (proj1 (C8_filter_must_be_string (mkListener "keyDown" 7) (JNum 3) 1
                   initial) _).
  intros name H. discriminate H.
Defined.

(** ** The membership test *)

Section Membership.

Lemma mem_elem_of (k : string) (l : list string) : mem k l = true <-> k ∈ l.
Proof.
  unfold mem. rewrite existsb_exists, list_elem_of_In. split.
  - intros (x & Hx & ->%String.eqb_eq). done.
  - intros H. exists k. split; [done|]. apply String.eqb_refl.
Qed.

Lemma callEvents_plain_add eventName actionName params (s : State) :
  callEvents_plain eventName actionName params s
  = add_effects
      (Emit eventName (nullish actionName "*") params
         :: flat_map (fun cb => effects_of
                                  (callback cb (nullish actionName "*") params))
              (callbacks_for eventName s)) s.
Proof.
  unfold callEvents_plain, callbacks_for. rewrite effect_add.
  change (registeredEvents (add_effects ?l s)) with (registeredEvents s).
  destruct (registeredEvents s !! eventName) as [cbs|]; simpl.
  - by rewrite fold_callbacks_add, add_effects_app.
  - reflexivity.
Qed.

End Membership.

(** C9 (as amended). The test [eventName in [...]] asks whether the name is
    a property of the array: it holds for the indices, for "length" and for
    the names arrays inherit, and for nothing else; so not for the three
    names in the array, nor for any other event name of the program. Where
    the test fails, [callEvents] is the routine without the branch; and
    where it holds, the two differ by console lines only. *)
Theorem C9_membership_test :
  (forall name, in_array name global_events = true <-> name ∈ array_keys)
  /\ Forall (fun name => in_array name global_events = false) known_events
  /\ (forall eventName actionName params s,
      in_array eventName global_events = false ->
      callEvents eventName actionName params s
      = callEvents_plain eventName actionName params s)
  /\ (forall eventName actionName params s,
      non_console (trace (callEvents eventName actionName params s))
      = non_console (trace (callEvents_plain eventName actionName params s))
      /\ set_trace [] (callEvents eventName actionName params s)
         = set_trace [] (callEvents_plain eventName actionName params s)).
Proof.
  split; [|split; [|split]].
  - intros name. unfold in_array, array_keys.
    rewrite !orb_true_iff, !mem_elem_of, !elem_of_app. simpl. tauto.
  - unfold known_events. repeat constructor.
  - intros eventName actionName params s H.
    rewrite callEvents_add, callEvents_plain_add. unfold subscribers_effects.
    by rewrite H.
  - intros eventName actionName params s.
    rewrite callEvents_add, callEvents_plain_add. unfold subscribers_effects.
    split; [|reflexivity].
    unfold add_effects, non_console. simpl.
    rewrite !List.filter_app. simpl. f_equal. f_equal.
    rewrite List.filter_app. by destruct (in_array _ _).
Qed.

(** The three names of the array are not members by this test. *)
Lemma C9_witness :
  callEvents "setupReady" None [] initial
  = callEvents_plain "setupReady" None [] initial.
Proof.
  refine (proj1 (proj2 (proj2 C9_membership_test)) "setupReady" None [] initial _).
  reflexivity.
Defined.

(** C9, as the claim has it, fails: "length" is none of "0", "1" and "2",
    and the test holds for it. *)
Lemma C9_counterexample :
  ("length" ∉ ["0"; "1"; "2"]) /\ in_array "length" global_events = true.
Proof.
  split; [|reflexivity]. intros H.
  repeat (apply elem_of_cons in H as [H|H]; [discriminate H|]).
  by apply elem_of_nil in H.
Qed.

(** * Further properties of the code *)

(** ** Readiness: notifications and flags *)

Section Grounded.

Implicit Types (s : State) (n : Notification).

Lemma latch_flag_readiness s s' n :
  readiness s = readiness s' -> latch n s = latch n s' /\ flag n s = flag n s'.
Proof.
  unfold readiness. intros [= H1 H2 H3 H4 H5 H6 H7].
  destruct n; simpl; split; congruence.
Qed.

Lemma grounded_respects : respects grounded.
Proof.
  intros s s' [Hr _]%view_projections H n.
  destruct (latch_flag_readiness s s' n Hr) as [<- <-]. apply H.
Qed.

(** Setting a flag and evaluating keeps the latches grounded. *)
Lemma grounded_trigger (set : State -> State) s :
  (forall n, latch n (set s) = latch n s) ->
  (forall n, flag n s = true -> flag n (set s) = true) ->
  grounded s -> grounded (_handleReadyState (set s)).
Proof.
  intros Hl Hf H.
  pose proof (readiness_handleReadyState (set s)) as Hr.
  unfold readiness in Hr. cbv zeta in Hr.
  injection Hr as Hd Hc Hg Hdi Hci Hgi Hoi.
  pose proof (Hl connectionOpened) as L1. pose proof (Hl documentLoaded) as L2.
  pose proof (Hl globalSettingsAvailable) as L3. pose proof (Hl setupReady) as L4.
  pose proof (fun n (E : latch n s = true) => Hf n (H n E)) as G.
  pose proof (G connectionOpened) as G1. pose proof (G documentLoaded) as G2.
  pose proof (G globalSettingsAvailable) as G3. pose proof (G setupReady) as G4.
  simpl in L1, L2, L3, L4, G1, G2, G3, G4.
  intros n. destruct n; simpl; rewrite ?Hd, ?Hc, ?Hg, ?Hdi, ?Hci, ?Hgi, ?Hoi;
    rewrite ?L1, ?L2, ?L3, ?L4;
    destruct (_connectionReady (set s)), (_documentReady (set s)),
      (_globalSettingsReady (set s)), (_connectionReadyInvoked s),
      (_documentReadyInvoked s), (_globalSettingsInvoked s), (_onReadyInvoked s);
    simpl in *; auto.
Qed.

Lemma grounded_run ops s : grounded s -> grounded (run ops s).
Proof.
  apply run_preserves.
  - exact grounded_respects.
  - intros s0. apply grounded_trigger; [by intros []|].
    intros []; simpl; try done. intros H.
    apply andb_true_iff in H as [H ?]. apply andb_true_iff in H as [? ?].
    by repeat (apply andb_true_iff; split).
  - intros s0. apply grounded_trigger; [by intros []|].
    intros []; simpl; try done. intros H.
    apply andb_true_iff in H as [H ?]. by apply andb_true_iff in H as [? ->].
  - intros s0. apply grounded_trigger; [by intros []|].
    intros []; simpl; try done. intros H.
    apply andb_true_iff in H as [H ?]. apply andb_true_iff in H as [-> ->]. done.
Qed.

End Grounded.

(** X1. Between any two events of the loop, a notification has been emitted
    exactly once if its flag is true and not at all if it is false; for
    [setupReady] the flag is the three flags together. *)
Theorem notified_iff_ready (ops : list Op) (n : Notification) :
  let s := run ops initial in
  count n (notifications s) = if flag n s then 1 else 0.
Proof.
  intros s.
  destruct (invariant_run ops initial invariant_initial)
    as [(Hcount & _ & _) (Hc & Hd & Hg & Ho)]. fold s in Hcount, Hc, Hd, Hg, Ho.
  assert (Hgr : grounded s) by (apply grounded_run; by intros []).
  rewrite Hcount. specialize (Hgr n).
  destruct (latch n s) eqn:El; [by rewrite Hgr|].
  destruct (flag n s) eqn:Ef; [|done]. exfalso.
  destruct n; simpl in El, Ef.
  - by rewrite Hc in El.
  - by rewrite Hd in El.
  - by rewrite Hg in El.
  - apply andb_true_iff in Ef as [Ef E3]. apply andb_true_iff in Ef as [E1 E2].
    rewrite Ho in El; [done|by apply Hc|by apply Hd|by apply Hg].
Qed.

(** X2. [_handleReadyState] is idempotent on every state, reachable or not:
    a second run straight after the first changes nothing and emits
    nothing. *)
Theorem handleReadyState_idempotent (s : State) :
  _handleReadyState (_handleReadyState s) = _handleReadyState s.
Proof. apply handleReadyState_settled, settled_handleReadyState. Qed.

(** ** The router: fan-out and the subscription table *)

Section FanOut.

Implicit Types (s : State) (cb : Callback).

Lemma applications_callback cb a params :
  applications (effects_of (callback cb a params))
  = if passes (cb_actionName cb) a
    then [Apply (cb_descriptor cb) (cb_instance cb) params] else [].
Proof.
  unfold effects_of, callback, applications, passes.
  destruct (in_array (cb_event cb) global_events),
    (not_str a), (String.eqb a "*"), (String.eqb (cb_actionName cb) "*"),
    (String.eqb (cb_actionName cb) a); reflexivity.
Qed.

Lemma applications_app (l1 l2 : list Effect) :
  applications (l1 ++ l2) = applications l1 ++ applications l2.
Proof. apply List.filter_app. Qed.

Lemma applications_flat_map (cbs : list Callback) a params :
  applications (flat_map (fun cb => effects_of (callback cb a params)) cbs)
  = flat_map (fun cb => if passes (cb_actionName cb) a
                        then [Apply (cb_descriptor cb) (cb_instance cb) params]
                        else []) cbs.
Proof.
  induction cbs as [|cb cbs IH]; [done|].
  simpl. by rewrite applications_app, applications_callback, IH.
Qed.

End FanOut.

Lemma callEvents_applications (eventName : string) (actionName : option string)
    (params : list Param) (s : State) :
  applications (new_effects s (callEvents eventName actionName params s))
  = flat_map (fun cb => if passes (cb_actionName cb) (nullish actionName "*")
                        then [Apply (cb_descriptor cb) (cb_instance cb) params]
                        else [])
      (callbacks_for eventName s).
Proof.
  rewrite callEvents_add, new_effects_add. unfold subscribers_effects.
  change (applications (?e :: ?l)) with (applications ([e] ++ l)).
  rewrite !applications_app, applications_flat_map.
  by destruct (in_array eventName global_events).
Qed.

(** X3. [callEvents] calls the callbacks registered for the event name, each
    once and in the order of registration, and no callback of another name;
    the methods applied are those of the callbacks whose filter lets the
    action name pass, in that order, each with the parameters given. For a
    name nothing is registered for, nothing is applied. *)
Theorem callEvents_fan_out (eventName : string) (actionName : option string)
    (params : list Param) (s : State) :
  applications (new_effects s (callEvents eventName actionName params s))
  = flat_map (fun cb => if passes (cb_actionName cb) (nullish actionName "*")
                        then [Apply (cb_descriptor cb) (cb_instance cb) params]
                        else [])
      (callbacks_for eventName s).
Proof. exact (callEvents_applications eventName actionName params s). Qed.

Lemma registerEvent_callbacks (eventName other : string) (cb : Callback) (s : State) :
  callbacks_for other (registerEvent eventName cb s)
  = (if decide (other = eventName) then callbacks_for eventName s ++ [cb]
     else callbacks_for other s)
  /\ set_registeredEvents (registeredEvents s) (registerEvent eventName cb s) = s.
Proof.
  split.
  - destruct (decide (other = eventName)) as [->|Hne].
    + apply callbacks_for_registerEvent.
    + unfold callbacks_for, registerEvent.
      destruct (registeredEvents s !! eventName) as [cbs|] eqn:E.
      * rewrite E. simpl. by rewrite lookup_insert_ne.
      * simpl. rewrite lookup_insert_eq. simpl. by rewrite !lookup_insert_ne.
  - unfold registerEvent.
    destruct (registeredEvents s !! eventName) as [cbs|] eqn:E.
    + rewrite E. by destruct s.
    + simpl. rewrite lookup_insert_eq. by destruct s.
Qed.

(** X4. [registerEvent] puts the callback last in the list of its event
    name, starting the list when the name is new; the list of every other
    name, and the rest of the state, are left as they were. *)
Theorem registerEvent_lookup (eventName other : string) (cb : Callback) (s : State) :
  callbacks_for other (registerEvent eventName cb s)
  = (if decide (other = eventName) then callbacks_for eventName s ++ [cb]
     else callbacks_for other s)
  /\ set_registeredEvents (registeredEvents s) (registerEvent eventName cb s) = s.
Proof. exact (registerEvent_callbacks eventName other cb s). Qed.

Section Constructor.

Lemma constructor_step (l : EventListener) (this : nat) (s : State) :
  eventListener l (JStr "*") this s
  = (registerEvent (el_event l) (wildcard_callback this l) s, Normal tt).
Proof. reflexivity. Qed.

Lemma for_of_listeners (events : list EventListener) (this : nat) (s : State)
    (eventName : string) :
  let result := for_of events (fun event => eventListener event (JStr "*") this) s in
  snd result = Normal tt
  /\ callbacks_for eventName (fst result)
     = callbacks_for eventName s
       ++ map (wildcard_callback this) (listeners_for eventName events).
Proof.
  revert s. induction events as [|l events IH]; intros s; simpl.
  - by rewrite app_nil_r.
  - rewrite (bind_normal _ _ _ _ _ (constructor_step l this s)).
    destruct (IH (registerEvent (el_event l) (wildcard_callback this l) s))
      as [H1 H2].
    split; [exact H1|]. rewrite H2.
    destruct (registerEvent_callbacks (el_event l) eventName
                (wildcard_callback this l) s) as [-> _].
    destruct (String.eqb_spec (el_event l) eventName) as [->|Hne].
    + rewrite decide_True by done. simpl. by rewrite <- app_assoc.
    + rewrite decide_False by congruence. done.
Qed.

End Constructor.

Lemma constructor_callbacks (events : list EventListener) (this : nat)
    (s : State) (eventName : string) :
  snd (constructor (Some events) this s) = Normal tt
  /\ callbacks_for eventName (fst (constructor (Some events) this s))
     = callbacks_for eventName s
       ++ map (wildcard_callback this) (listeners_for eventName events)
  /\ constructor None this s = (s, Normal tt).
Proof.
  destruct (for_of_listeners events this s eventName) as [H1 H2].
  by repeat split.
Qed.

(** X5. The constructor never throws. It subscribes every decorated listener
    with the wildcard filter and the new instance, so that afterwards the
    callbacks of an event name are those there before, followed by one for
    each listener of that name, in the order of decoration. Without
    decorated listeners the state is left as it was. *)
Theorem constructor_registers (events : list EventListener) (this : nat)
    (s : State) (eventName : string) :
  snd (constructor (Some events) this s) = Normal tt
  /\ callbacks_for eventName (fst (constructor (Some events) this s))
     = callbacks_for eventName s
       ++ map (wildcard_callback this) (listeners_for eventName events)
  /\ constructor None this s = (s, Normal tt).
Proof. exact (constructor_callbacks events this s eventName). Qed.

(** ** What a call keeps *)

Section Keeps.

Context {X : Type} (proj : State -> X).

Lemma keeps_ret {A} (a : A) : keeps proj (mret a : M A).
Proof. intros s. reflexivity. Qed.

Lemma keeps_throw {A} (e : exn) : keeps proj (throw e : M A).
Proof. intros s. reflexivity. Qed.

Lemma keeps_eval {A} (c : completion A) : keeps proj (eval c).
Proof. intros s. reflexivity. Qed.

Lemma keeps_get : keeps proj get.
Proof. intros s. reflexivity. Qed.

Lemma keeps_lift (f : State -> State) :
  (forall s, proj (f s) = proj s) -> keeps proj (lift f).
Proof. intros H s. apply H. Qed.

Lemma keeps_bind {A B} (m : M A) (k : A -> M B) :
  keeps proj m -> (forall a, keeps proj (k a)) -> keeps proj (m ≫= k).
Proof.
  intros Hm Hk s. specialize (Hm s). unfold mbind, M_bind.
  destruct (m s) as [s' [a|e]]; simpl in *; [|done].
  by rewrite Hk.
Qed.

Lemma keeps_when (b : bool) (m : M unit) : keeps proj m -> keeps proj (when b m).
Proof. intros H. destruct b; [exact H|apply keeps_ret]. Qed.

Lemma keeps_for_of {A} (xs : list A) (body : A -> M unit) :
  (forall x, keeps proj (body x)) -> keeps proj (for_of xs body).
Proof.
  intros Hb. induction xs as [|x xs IH]; simpl.
  - apply keeps_ret.
  - apply keeps_bind; [apply Hb|]. intros _. exact IH.
Qed.

Lemma keeps_run (step_keeps : forall op, keeps proj (step op)) ops s :
  proj (run ops s) = proj s.
Proof.
  revert s. induction ops as [|op ops IH]; intros s; simpl; [done|].
  by rewrite IH, step_keeps.
Qed.

(** A reading that effects other than transmissions, the flags, the latches
    and the settings cache do not change. *)
Hypothesis proj_add :
  forall l s, no_transmit l -> proj (add_effects l s) = proj s.
Hypothesis proj_fields :
  forall s b v,
    proj (set_documentReady b s) = proj s
    /\ proj (set_connectionReady b s) = proj s
    /\ proj (set_globalSettingsReady b s) = proj s
    /\ proj (set_documentReadyInvoked b s) = proj s
    /\ proj (set_connectionReadyInvoked b s) = proj s
    /\ proj (set_globalSettingsInvoked b s) = proj s
    /\ proj (set_onReadyInvoked b s) = proj s
    /\ proj (set_globalSettings v s) = proj s.

Lemma proj_callEvents eventName actionName params s :
  proj (callEvents eventName actionName params s) = proj s.
Proof.
  rewrite callEvents_add. apply proj_add. unfold no_transmit.
  rewrite omap_cons. simpl. apply quiet_no_transmit, subscribers_quiet.
Qed.

Lemma proj_rule c n s : proj (rule c n s) = proj s.
Proof.
  unfold rule. destruct c; [|done].
  destruct (proj_fields s true JNull) as (_ & _ & _ & H1 & H2 & H3 & H4 & _).
  destruct n; unfold notify; by rewrite proj_callEvents.
Qed.

Lemma proj_handleReadyState s : proj (_handleReadyState s) = proj s.
Proof.
  destruct (handleReadyState_stages s) as (s1 & s2 & s3 & -> & -> & -> & ->).
  by rewrite !proj_rule.
Qed.

Lemma proj_console msg s : proj (console msg s) = proj s.
Proof. rewrite console_add. by apply proj_add. Qed.

Lemma keeps_eventHandler ev : keeps proj (_eventHandler ev).
Proof.
  unfold _eventHandler.
  apply keeps_bind; [apply keeps_eval|]. intros eventData.
  apply keeps_bind; [apply keeps_get|]. intros s0.
  apply keeps_bind; [apply keeps_when, keeps_lift, proj_console|]. intros _.
  apply keeps_bind; [|intros _; apply keeps_lift, proj_callEvents].
  apply keeps_when.
  apply keeps_bind; [apply keeps_eval|]. intros settings.
  apply keeps_bind.
  { apply keeps_lift. intros s. unfold cacheGlobalSettings.
    destruct (proj_fields (effect (CacheGlobalSettings settings) s) true settings)
      as (_ & _ & _ & _ & _ & _ & _ & ->).
    rewrite effect_add. by apply proj_add. }
  intros _. apply keeps_bind.
  { apply keeps_lift. intros s. apply (proj_fields s true JNull). }
  intros _. apply keeps_lift, proj_handleReadyState.
Qed.

Lemma proj_documentReady_callback s : proj (documentReady_callback s) = proj s.
Proof.
  unfold documentReady_callback. rewrite proj_handleReadyState.
  apply (proj_fields s true JNull).
Qed.

End Keeps.

(** ** What only grows: the subscription table and the queue *)

Section Stable.

(** A property of the subscription table and the queue that registering a
    callback and queueing a frame keep. *)
Variable P : State -> Prop.
Hypothesis P_core :
  forall s s', registeredEvents s = registeredEvents s' ->
               _cachedEvents s = _cachedEvents s' -> P s -> P s'.
Hypothesis P_register : forall eventName cb s, P s -> P (registerEvent eventName cb s).
Hypothesis P_push :
  forall t s, P s -> P (set_cachedEvents (_cachedEvents s ++ [t]) s).

Lemma stable_lift (f : State -> State) :
  (forall s, registeredEvents (f s) = registeredEvents s
             /\ _cachedEvents (f s) = _cachedEvents s) ->
  hoare P (lift f) P P.
Proof.
  intros Hf. apply hoare_lift. intros s H.
  destruct (Hf s) as [H1 H2]. by apply (P_core s).
Qed.

Lemma stable_get {B} (k : State -> M B) :
  (forall s0, hoare P (k s0) P P) -> hoare P (get ≫= k) P P.
Proof.
  intros Hk. apply hoare_get. intros s0.
  eapply hoare_conseq; [apply Hk| |done..]. by intros s [H _].
Qed.

Lemma stable_console msg : hoare P (lift (console msg)) P P.
Proof. by apply stable_lift. Qed.

Lemma stable_callEvents eventName actionName params :
  hoare P (lift (callEvents eventName actionName params)) P P.
Proof.
  apply stable_lift. intros s.
  by destruct (apart_callEvents eventName actionName params s)
    as (_ & _ & _ & ? & ? & _).
Qed.

Lemma stable_handleReadyState : hoare P (lift _handleReadyState) P P.
Proof.
  apply stable_lift. intros s.
  by destruct (apart_handleReadyState s) as (_ & _ & _ & ? & ? & _).
Qed.

Lemma stable_WebSocket_send t : hoare P (WebSocket_send t) P P.
Proof.
  intros s H. unfold WebSocket_send.
  destruct (_ws s) as [[u []]|]; try done.
  by apply (P_core s).
Qed.

Lemma stable_send event data : hoare P (send event data) P P.
Proof.
  intros s H. unfold send.
  set (s0 := if _debug s then _ else s).
  assert (H0 : P s0).
  { subst s0. destruct (_debug s); [|done]. by apply (P_core s). }
  destruct (_ws s0) as [w|].
  - by apply stable_WebSocket_send.
  - apply P_push. destruct (_debug s0); [|done]. by apply (P_core s0).
Qed.

Lemma stable_open : hoare P _open P P.
Proof.
  unfold _open. apply stable_get; intros s0.
  eapply hoare_bind; [apply stable_send|]. intros _.
  apply stable_get; intros s1.
  eapply hoare_bind.
  - apply hoare_when. eapply hoare_bind.
    + apply hoare_when, stable_console.
    + intros _. apply hoare_for_of, stable_WebSocket_send.
  - intros _. eapply hoare_bind; [by apply stable_lift|]. intros _.
    eapply hoare_bind; [apply stable_handleReadyState|]. intros _.
    unfold requestGlobalSettings. apply stable_get; intros s2.
    apply stable_send.
Qed.

Lemma stable_eventHandler ev : hoare P (_eventHandler ev) P P.
Proof.
  unfold _eventHandler.
  eapply hoare_bind; [apply hoare_eval|]. intros eventData.
  apply stable_get; intros s0.
  eapply hoare_bind; [apply hoare_when, stable_console|]. intros _.
  eapply hoare_bind; [|intros _; apply stable_callEvents].
  apply hoare_when.
  eapply hoare_bind; [apply hoare_eval|]. intros settings.
  eapply hoare_bind; [by apply stable_lift|]. intros _.
  eapply hoare_bind; [by apply stable_lift|]. intros _.
  apply stable_handleReadyState.
Qed.

Lemma stable_eventListener l actionName instance :
  hoare P (eventListener l actionName instance) P P.
Proof.
  unfold eventListener. destruct (negb _).
  - apply hoare_throw.
  - apply hoare_lift. intros s. apply P_register.
Qed.

Lemma stable_connect port uuid registerEvent info actionInfo :
  hoare P (connectElgatoStreamDeckSocket port uuid registerEvent info actionInfo)
    P P.
Proof.
  unfold connectElgatoStreamDeckSocket.
  do 3 (eapply hoare_bind; [by apply stable_lift|]; intros _).
  eapply hoare_bind; [apply hoare_eval|]. intros parsed.
  eapply hoare_bind; [by apply stable_lift|]. intros _.
  eapply hoare_bind; [|intros _; by apply stable_lift].
  destruct actionInfo as [text|]; [|apply hoare_ret].
  apply hoare_when, stable_callEvents.
Qed.

Lemma stable_step op : hoare P (step op) P P.
Proof.
  destruct op; simpl.
  - unfold constructor. destruct _sd_events as [events|]; [|apply hoare_ret].
    apply hoare_for_of. intros l. apply stable_eventListener.
  - apply stable_eventListener.
  - by apply stable_lift.
  - apply stable_send.
  - apply stable_connect.
  - unfold documentReady_callback. apply hoare_lift. intros s H.
    pose proof (stable_handleReadyState (set_documentReady true s)) as Hh.
    apply Hh. by apply (P_core s).
  - eapply hoare_bind; [|intros _; apply stable_open].
    apply stable_lift. intros s. unfold ws_becomes. by destruct (_ws s).
  - eapply hoare_bind; [|intros _; apply stable_callEvents].
    apply stable_lift. intros s. unfold ws_becomes. by destruct (_ws s).
  - apply stable_eventHandler.
Qed.

Lemma stable_run ops s : P s -> P (run ops s).
Proof.
  revert s. induction ops as [|op ops IH]; intros s H; simpl; [done|].
  apply IH. pose proof (stable_step op s H) as Hs.
  by destruct (step op s) as [s' [[]|e]].
Qed.

End Stable.

(** X6. Subscriptions are permanent: whatever events follow, the callbacks
    registered for an event name stay where they are, in their order, and
    new ones only come after them. *)
Theorem subscriptions_permanent (ops : list Op) (s : State) (eventName : string) :
  callbacks_for eventName s `prefix_of` callbacks_for eventName (run ops s).
Proof.
  apply (stable_run
           (fun x => callbacks_for eventName s `prefix_of` callbacks_for eventName x)).
  - intros s1 s2 H1 _. unfold callbacks_for. by rewrite H1.
  - intros E cb s1 H.
    destruct (registerEvent_callbacks E eventName cb s1) as [-> _].
    destruct (decide (eventName = E)) as [->|]; [|done].
    by apply prefix_app_r.
  - by intros t s1 H.
  - done.
Qed.

(** X7. The queue is never emptied, not even by the flush of [_open]:
    whatever events follow, the frames queued stay in the queue, in their
    order. *)
Theorem queue_never_emptied (ops : list Op) (s : State) :
  _cachedEvents s `prefix_of` _cachedEvents (run ops s).
Proof.
  apply (stable_run (fun x => _cachedEvents s `prefix_of` _cachedEvents x)).
  - intros s1 s2 _ H2. by rewrite H2.
  - intros E cb s1 H.
    destruct (registerEvent_callbacks E E cb s1) as [_ Hrest].
    apply (f_equal _cachedEvents) in Hrest. simpl in Hrest. by rewrite Hrest.
  - intros t s1 H. simpl. by apply prefix_app_r.
  - done.
Qed.

(** ** Who writes to the wire *)

Section Wire.

Lemma wire_add l s : no_transmit l -> wire (add_effects l s) = wire s.
Proof. intros H. unfold wire. rewrite transmitted_add. unfold no_transmit in H. by rewrite H, app_nil_r. Qed.

Lemma wire_fields s (b : bool) (v : value) :
  wire (set_documentReady b s) = wire s
  /\ wire (set_connectionReady b s) = wire s
  /\ wire (set_globalSettingsReady b s) = wire s
  /\ wire (set_documentReadyInvoked b s) = wire s
  /\ wire (set_connectionReadyInvoked b s) = wire s
  /\ wire (set_globalSettingsInvoked b s) = wire s
  /\ wire (set_onReadyInvoked b s) = wire s
  /\ wire (set_globalSettings v s) = wire s.
Proof. by repeat split. Qed.

Lemma wire_registerEvent eventName cb s : wire (registerEvent eventName cb s) = wire s.
Proof.
  destruct (registerEvent_callbacks eventName eventName cb s) as [_ H].
  apply (f_equal wire) in H. exact H.
Qed.

Lemma keeps_wire_eventListener l actionName instance :
  keeps wire (eventListener l actionName instance).
Proof.
  unfold eventListener. destruct (negb _).
  - apply keeps_throw.
  - apply keeps_lift. intros s. apply wire_registerEvent.
Qed.

Lemma keeps_wire_connect port uuid registerEvent info actionInfo :
  keeps wire (connectElgatoStreamDeckSocket port uuid registerEvent info actionInfo).
Proof.
  unfold connectElgatoStreamDeckSocket.
  do 3 (apply keeps_bind; [by apply keeps_lift|]; intros _).
  apply keeps_bind; [apply keeps_eval|]. intros parsed.
  apply keeps_bind; [by apply keeps_lift|]. intros _.
  apply keeps_bind; [|intros _; by apply keeps_lift].
  destruct actionInfo as [text|]; [|apply keeps_ret].
  apply keeps_when, keeps_lift. intros s.
  apply (proj_callEvents wire wire_add).
Qed.

End Wire.

(** X8. Frames are transmitted and queued by [send] and by [_open] only: no
    other event of the loop (building the handler, subscribing, switching
    debugging on, the host connecting, the document becoming ready, the
    socket closing, an inbound message of any kind) transmits anything or
    changes the queue, whether it completes or throws. *)
Theorem only_send_and_open_write (op : Op) (s : State) :
  match op with
  | Send _ _ | WsOpen => True
  | _ => transmitted (fst (step op s)) = transmitted s
         /\ _cachedEvents (fst (step op s)) = _cachedEvents s
  end.
Proof.
  assert (Hw : forall m : M unit, keeps wire m ->
             transmitted (fst (m s)) = transmitted s
             /\ _cachedEvents (fst (m s)) = _cachedEvents s).
  { intros m Hm. specialize (Hm s). unfold wire in Hm. by injection Hm. }
  destruct op; try exact I; apply Hw; simpl.
  - unfold constructor. destruct _sd_events as [events|]; [|apply keeps_ret].
    apply keeps_for_of. intros l. apply keeps_wire_eventListener.
  - apply keeps_wire_eventListener.
  - by apply keeps_lift.
  - apply keeps_wire_connect.
  - apply keeps_lift. intros s0.
    apply (proj_documentReady_callback wire wire_add wire_fields).
  - apply keeps_bind.
    + apply keeps_lift. intros s0. unfold ws_becomes. by destruct (_ws s0).
    + intros _. apply keeps_lift. intros s0. apply (proj_callEvents wire wire_add).
  - apply (keeps_eventHandler wire wire_add wire_fields).
Qed.

(** ** The host connects *)

Lemma connect_fields (port uuid registerEvent : string) (info : option value)
    (actionInfo : option string) (s : State) :
  let result :=
    connectElgatoStreamDeckSocket port uuid registerEvent info actionInfo s in
  _port (fst result) = Some port
  /\ _uuid (fst result) = Some uuid
  /\ _registerEvent (fst result) = Some registerEvent
  /\ match info with
     | Some v =>
         snd result = Normal tt
         /\ _info (fst result) = v
         /\ _ws (fst result)
            = Some (mkWebSocket ("ws://127.0.0.1:" +:+ port) CONNECTING)
         /\ emitted (fst result)
            = emitted s
              ++ match actionInfo with
                 | Some text =>
                     if not_str text then []
                     else [("registerPi", "*", [PText text])]
                 | None => []
                 end
     | None =>
         snd result = Throw SyntaxError
         /\ _info (fst result) = _info s
         /\ _ws (fst result) = _ws s
         /\ trace (fst result) = trace s
     end.
Proof.
  simpl. unfold connectElgatoStreamDeckSocket, mbind, M_bind, lift, eval. simpl.
  destruct info as [v|]; simpl; [|by repeat split].
  destruct actionInfo as [text|]; simpl.
  - destruct (not_str text); simpl.
    + rewrite app_nil_r. by repeat split.
    + match goal with
      | |- context [callEvents ?e ?a ?p ?x] =>
          pose proof (emitted_callEvents e a p x) as He;
          pose proof (callEvents_add e a p x) as Ha
      end.
      repeat split; try (rewrite Ha; reflexivity).
      unfold emitted in *. simpl in *. exact He.
  - rewrite app_nil_r. by repeat split.
Qed.

(** X9. [connectElgatoStreamDeckSocket] assigns the port, the instance
    identifier and the registration event before anything else. When [info]
    is JSON and the port is a decimal number up to 65535, the call completes,
    [registerPi] is emitted if and only if [actionInfo] is a non-empty text,
    and a socket to [ws://127.0.0.1:<port>] is made, CONNECTING. When [info]
    is not JSON the call throws [SyntaxError] with the three fields
    assigned, and with the socket, the stored info and the effects as they
    were. *)
Theorem connect_outcome (port uuid registerEvent : string) (info : option value)
    (actionInfo : option string) (s : State) :
  let result :=
    connectElgatoStreamDeckSocket port uuid registerEvent info actionInfo s in
  _port (fst result) = Some port
  /\ _uuid (fst result) = Some uuid
  /\ _registerEvent (fst result) = Some registerEvent
  /\ match info with
     | Some v =>
         decimal_port port = true ->
         snd result = Normal tt
         /\ _info (fst result) = v
         /\ _ws (fst result)
            = Some (mkWebSocket ("ws://127.0.0.1:" +:+ port) CONNECTING)
         /\ emitted (fst result)
            = emitted s
              ++ match actionInfo with
                 | Some text =>
                     if not_str text then []
                     else [("registerPi", "*", [PText text])]
                 | None => []
                 end
     | None =>
         snd result = Throw SyntaxError
         /\ _info (fst result) = _info s
         /\ _ws (fst result) = _ws s
         /\ trace (fst result) = trace s
     end.
Proof.
  intros result.
  destruct (connect_fields port uuid registerEvent info actionInfo s)
    as (H1 & H2 & H3 & H4).
  split; [exact H1|]. split; [exact H2|]. split; [exact H3|].
  destruct info as [v|]; [intros _|]; exact H4.
Qed.

(** The property inspector connects on port 28196. *)
Lemma connect_outcome_witness :
  let result :=
    connectElgatoStreamDeckSocket "28196" "uuid" "registerPropertyInspector"
      (Some JNull) (Some "{}") initial in
  snd result = Normal tt
  /\ _info (fst result) = JNull
  /\ _ws (fst result) = Some (mkWebSocket "ws://127.0.0.1:28196" CONNECTING)
  /\ emitted (fst result) = [("registerPi", "*", [PText "{}"])].
Proof.
  cbv zeta.
  refine (proj2 (proj2 (proj2
    (connect_outcome "28196" "uuid" "registerPropertyInspector" (Some JNull)
       (Some "{}") initial))) _).
  reflexivity.
Defined.

(** ** The frame [send] builds *)

Section Frame.

Implicit Types (k : string) (o d : list (string * value)).

Lemma get_prop_set_prop k k' v o :
  get_prop k (set_prop k' v o) = if String.eqb k k' then v else get_prop k o.
Proof.
  induction o as [|[k1 v1] o IH]; simpl.
  - by destruct (String.eqb k k').
  - destruct (String.eqb_spec k' k1) as [->|Hne]; simpl.
    + by destruct (String.eqb k k1).
    + rewrite IH. destruct (String.eqb_spec k k1) as [->|]; [|done].
      destruct (String.eqb_spec k1 k') as [E|]; [|done]. by destruct Hne.
Qed.

Lemma get_prop_app k o d :
  get_prop k (o ++ d) = if has_key k o then get_prop k o else get_prop k d.
Proof.
  induction o as [|[k1 v1] o IH]; simpl; [done|].
  by destruct (String.eqb k k1).
Qed.

Lemma has_key_rev k d : has_key k (rev d) = has_key k d.
Proof.
  unfold has_key. induction d as [|x d IH]; simpl; [done|].
  rewrite existsb_app, IH. simpl. rewrite orb_false_r. apply orb_comm.
Qed.

Lemma get_prop_spread k o d :
  get_prop k (spread o d)
  = if has_key k d then get_prop k (rev d) else get_prop k o.
Proof.
  unfold spread. revert o. induction d as [|[k1 v1] d IH]; intros o; simpl; [done|].
  rewrite IH, get_prop_set_prop, get_prop_app.
  rewrite has_key_rev.
  destruct (has_key k d); simpl; [by rewrite orb_true_r|].
  rewrite orb_false_r. by destruct (String.eqb k k1).
Qed.






End Frame.



(** ** The queue, flushed again *)

Section Reopen.

(** The socket there is opens: what goes out. *)
Lemma open_event_sends (w : WebSocket) (s : State) :
  _ws s = Some w ->
  let s' := fst (step WsOpen s) in
  snd (step WsOpen s) = Normal tt
  /\ _uuid s' = _uuid s /\ _registerEvent s' = _registerEvent s
  /\ _cachedEvents s' = _cachedEvents s
  /\ (exists w', _ws s' = Some w')
  /\ transmitted s'
     = transmitted s
       ++ [outgoing (of_option (_registerEvent s)) [("uuid", of_option (_uuid s))]]
       ++ _cachedEvents s
       ++ [outgoing (JStr "getGlobalSettings") [("context", of_option (_uuid s))]].
Proof.
  intros Hw.
  assert (Hopen : is_open (ws_becomes OPEN s)).
  { unfold ws_becomes. rewrite Hw. by eexists. }
  assert (Hf : _uuid (ws_becomes OPEN s) = _uuid s
               /\ _registerEvent (ws_becomes OPEN s) = _registerEvent s
               /\ _cachedEvents (ws_becomes OPEN s) = _cachedEvents s
               /\ transmitted (ws_becomes OPEN s) = transmitted s).
  { unfold ws_becomes. by rewrite Hw. }
  destruct Hf as (Hu & Hr & Hc & Ht).
  destruct (open_sends _ Hopen) as [Hn Hsent].
  rewrite Hu, Hr, Hc in Hsent.
  pose proof (sent_is_open _ _ _ Hsent Hopen) as (w' & Hw' & _).
  destruct Hsent as (_ & Hu' & Hr' & _ & Hc' & Ht').
  cbv zeta. change (step WsOpen s) with (_open (ws_becomes OPEN s)).
  split; [exact Hn|]. split; [by rewrite Hu', Hu|].
  split; [by rewrite Hr', Hr|]. split; [by rewrite Hc', Hc|].
  split; [by exists w'|]. by rewrite Ht', Ht.
Qed.

End Reopen.

(** X11. Because the queue is never emptied, it is flushed at every open: a
    socket has opened, the host connects again and the new socket opens; the
    frames queued before the first open go out a second time, after the new
    registration frame. *)
Theorem queue_resent_on_reopen (w : WebSocket) (port uuid registerEvent : string)
    (info : value) (actionInfo : option string) (s : State) :
  _ws s = Some w ->
  transmitted
    (run [WsOpen; Connect port uuid registerEvent (Some info) actionInfo; WsOpen] s)
  = transmitted s
    ++ ([outgoing (of_option (_registerEvent s)) [("uuid", of_option (_uuid s))]]
        ++ _cachedEvents s
        ++ [outgoing (JStr "getGlobalSettings") [("context", of_option (_uuid s))]])
    ++ ([outgoing (JStr registerEvent) [("uuid", JStr uuid)]]
        ++ _cachedEvents s
        ++ [outgoing (JStr "getGlobalSettings") [("context", JStr uuid)]]).
Proof.
  intros Hw.
  change (run [WsOpen; Connect port uuid registerEvent (Some info) actionInfo;
               WsOpen] s)
    with (fst (step WsOpen
                 (fst (step (Connect port uuid registerEvent (Some info) actionInfo)
                         (fst (step WsOpen s)))))).
  destruct (open_event_sends w s Hw) as (_ & _ & _ & Hc1 & _ & Ht1).
  set (s1 := fst (step WsOpen s)) in *.
  destruct (connect_socket port uuid registerEvent info actionInfo s1)
    as ((u & Hws) & Hu2 & Hr2 & Hc2 & Ht2).
  set (s2 := fst (step (Connect _ _ _ _ _) s1)) in *.
  destruct (open_event_sends _ s2 Hws) as (_ & _ & _ & _ & _ & Ht3).
  rewrite Ht3, Hu2, Hr2, Hc2, Hc1, Ht2, Ht1. simpl of_option.
  by rewrite <- !app_assoc.
Qed.

(** A message queued before the first open is on the wire twice. *)
Lemma queue_resent_on_reopen_witness :
  transmitted
    (run [WsOpen; Connect "28196" "uuid" "registerPlugin" (Some JNull) None; WsOpen]
       (run [Send "logMessage" []; Connect "28196" "uuid" "registerPlugin"
                                     (Some JNull) None] initial))
  = [ outgoing (JStr "registerPlugin") [("uuid", JStr "uuid")];
      outgoing (JStr "logMessage") [];
      outgoing (JStr "getGlobalSettings") [("context", JStr "uuid")];
      outgoing (JStr "registerPlugin") [("uuid", JStr "uuid")];
      outgoing (JStr "logMessage") [];
      outgoing (JStr "getGlobalSettings") [("context", JStr "uuid")] ].
Proof.
  rewrite (queue_resent_on_reopen
             (mkWebSocket "ws://127.0.0.1:28196" CONNECTING)
             "28196" "uuid" "registerPlugin" JNull None); [|reflexivity].
  reflexivity.
Defined.

(** Three messages sent before the host connects, one after the open. *)
Lemma queued_then_flushed_witness :
  transmitted
    (run (map send_op [("a", []); ("b", []); ("c", [])]
          ++ [Connect "28196" "uuid" "registerPlugin" (Some JNull) None; WsOpen]
          ++ map send_op [("d", [])]) initial)
  = transmitted initial
    ++ [outgoing (JStr "registerPlugin") [("uuid", JStr "uuid")]]
    ++ (_cachedEvents initial ++ map frame_of [("a", []); ("b", []); ("c", [])])
    ++ [outgoing (JStr "getGlobalSettings") [("context", JStr "uuid")]]
    ++ map frame_of [("d", [])].
Proof. apply queued_then_flushed. reflexivity. Defined.

(** ** What can throw *)

Section Throws.



End Throws.



(** ** From the decorator to the method *)

Section Decorated.

Lemma passes_wildcard (a : string) : passes "*" a = true.
Proof. unfold passes. simpl. by rewrite orb_true_r. Qed.

Lemma listeners_for_app (eventName : string) (l1 l2 : list EventListener) :
  listeners_for eventName (l1 ++ l2)
  = listeners_for eventName l1 ++ listeners_for eventName l2.
Proof. apply List.filter_app. Qed.

Lemma wildcard_applications (this : nat) (a : string) (params : list Param)
    (ls : list EventListener) :
  flat_map (fun cb => if passes (cb_actionName cb) a
                      then [Apply (cb_descriptor cb) (cb_instance cb) params]
                      else [])
    (map (wildcard_callback this) ls)
  = map (fun l => Apply (el_descriptor l) this params) ls.
Proof.
  induction ls as [|l ls IH]; [done|].
  simpl. by rewrite passes_wildcard, IH.
Qed.

(** The applications an inbound frame other than the reserved one leads
    to. *)
Lemma eventHandler_applications (frame : InboundFrame) (s : State) :
  event frame <> "didReceiveGlobalSettings" ->
  applications
    (new_effects s (fst (_eventHandler (mkMessageEvent (Encoded frame)) s)))
  = flat_map (fun cb => if passes (cb_actionName cb) (nullish (action frame) "*")
                        then [Apply (cb_descriptor cb) (cb_instance cb)
                                [PFrame frame]]
                        else [])
      (callbacks_for (event frame) s).
Proof.
  intros Hne. rewrite eventHandler_encoded.
  apply String.eqb_neq in Hne. rewrite Hne. simpl fst.
  pose proof (callEvents_applications (event frame) (Some (nullish (action frame) "*"))
                [PFrame frame]) as Hfan. simpl nullish in Hfan.
  destruct (_debug s); [|apply Hfan].
  transitivity
    (applications
       (new_effects (console (LogReceive (event frame) frame) s)
          (callEvents (event frame) (Some (nullish (action frame) "*"))
             [PFrame frame] (console (LogReceive (event frame) frame) s))));
    [|exact (Hfan (console (LogReceive (event frame) frame) s))].
  rewrite callEvents_add, new_effects_add.
  rewrite console_add, add_effects_app, new_effects_add.
  reflexivity.
Qed.

End Decorated.

(** X13. A method decorated for an event and a handler built afterwards: an
    inbound frame of that event (other than the reserved one) reaches the
    subscribers there were, as their filters allow, then the methods
    decorated earlier and then the method, each applied once to the new
    instance with the frame, whatever action the frame carries. *)
Theorem decorated_method_receives_frame (eventName : string)
    (descriptor this : nat) (earlier : option (list EventListener))
    (frame : InboundFrame) (s : State) :
  event frame = eventName ->
  eventName <> "didReceiveGlobalSettings" ->
  let s1 := fst (constructor
                   (Some (DefaultDecoratorEventListener eventName descriptor earlier))
                   this s) in
  let s2 := fst (_eventHandler (mkMessageEvent (Encoded frame)) s1) in
  applications (new_effects s1 s2)
  = flat_map (fun cb => if passes (cb_actionName cb) (nullish (action frame) "*")
                        then [Apply (cb_descriptor cb) (cb_instance cb)
                                [PFrame frame]]
                        else [])
      (callbacks_for eventName s)
    ++ map (fun l => Apply (el_descriptor l) this [PFrame frame])
         (listeners_for eventName (nullish earlier []))
    ++ [Apply descriptor this [PFrame frame]].
Proof.
  intros He Hne s1 s2. subst s2.
  rewrite eventHandler_applications by (by rewrite He).
  destruct (constructor_callbacks
              (DefaultDecoratorEventListener eventName descriptor earlier)
              this s eventName) as (_ & Hcbs & _).
  fold s1 in Hcbs. rewrite He, Hcbs.
  unfold DefaultDecoratorEventListener.
  rewrite listeners_for_app, map_app, !flat_map_app, !wildcard_applications.
  unfold listeners_for at 2. simpl. by rewrite String.eqb_refl.
Qed.

(** A method decorated for [keyDown], and a frame for some action. *)
Lemma decorated_method_receives_frame_witness :
  let frame := mkFrame "keyDown" (Some "com.foo.action1") JUndefined in
  let s1 := fst (constructor
                   (Some (DefaultDecoratorEventListener "keyDown" 7 None)) 1
                   initial) in
  applications
    (new_effects s1 (fst (_eventHandler (mkMessageEvent (Encoded frame)) s1)))
  = [Apply 7 1 [PFrame frame]].
Proof.
  cbv zeta.
  apply (decorated_method_receives_frame "keyDown" 7 1 None
           (mkFrame "keyDown" (Some "com.foo.action1") JUndefined) initial).
  - reflexivity.
  - discriminate.
Defined.

(** ** Debugging changes the console and nothing else *)

Section Hush.

Implicit Types (s : State).

Lemma non_console_app (l1 l2 : list Effect) :
  non_console (l1 ++ l2) = non_console l1 ++ non_console l2.
Proof. apply List.filter_app. Qed.

Lemma non_console_idem (l : list Effect) : non_console (non_console l) = non_console l.
Proof.
  unfold non_console. induction l as [|e l IH]; [done|].
  simpl. destruct e; simpl; by rewrite ?IH.
Qed.

Lemma hush_idem s : hush (hush s) = hush s.
Proof. unfold hush. simpl. by rewrite non_console_idem. Qed.

Lemma hush_add l s : hush (add_effects l s) = add_effects (non_console l) (hush s).
Proof. unfold hush, add_effects. simpl. by rewrite non_console_app. Qed.

(** What two states equal but for the console agree on. *)
Lemma hush_fields s s' :
  hush s = hush s' ->
  readiness s = readiness s'
  /\ _port s = _port s' /\ _uuid s = _uuid s'
  /\ _registerEvent s = _registerEvent s' /\ _ws s = _ws s'
  /\ _cachedEvents s = _cachedEvents s'
  /\ registeredEvents s = registeredEvents s'.
Proof.
  intros H. unfold readiness.
  pose proof (f_equal _documentReady H). pose proof (f_equal _connectionReady H).
  pose proof (f_equal _globalSettingsReady H).
  pose proof (f_equal _documentReadyInvoked H).
  pose proof (f_equal _connectionReadyInvoked H).
  pose proof (f_equal _globalSettingsInvoked H).
  pose proof (f_equal _onReadyInvoked H).
  pose proof (f_equal _port H). pose proof (f_equal _uuid H).
  pose proof (f_equal _registerEvent H). pose proof (f_equal _ws H).
  pose proof (f_equal _cachedEvents H). pose proof (f_equal registeredEvents H).
  simpl in *. repeat split; congruence.
Qed.

(** A change of the state that does not look at the console. *)
Lemma hush_commutes (f : State -> State) s s' :
  (forall x, hush (f x) = f (hush x)) -> hush s = hush s' ->
  hush (f s) = hush (f s').
Proof. intros Hf H. by rewrite !Hf, H. Qed.

Lemma hush_console msg s : hush (console msg s) = hush s.
Proof.
  rewrite console_add, hush_add. simpl.
  by rewrite add_effects_nil.
Qed.

Lemma hush_callEvents eventName actionName params s s' :
  hush s = hush s' ->
  hush (callEvents eventName actionName params s)
  = hush (callEvents eventName actionName params s').
Proof.
  intros H. rewrite !callEvents_add, !hush_add, H.
  unfold subscribers_effects, callbacks_for.
  destruct (hush_fields s s' H) as (_ & _ & _ & _ & _ & _ & ->). reflexivity.
Qed.

Lemma hush_rule c n s s' :
  hush s = hush s' -> hush (rule c n s) = hush (rule c n s').
Proof.
  intros H. unfold rule. destruct c; [|done].
  destruct n; unfold notify; apply hush_callEvents;
    by apply (hush_commutes _ s s').
Qed.

Lemma hush_handleReadyState s s' :
  hush s = hush s' -> hush (_handleReadyState s) = hush (_handleReadyState s').
Proof.
  intros H.
  destruct (handleReadyState_stages s) as (s1 & s2 & s3 & E1 & E2 & E3 & ->).
  destruct (handleReadyState_stages s') as (s1' & s2' & s3' & E1' & E2' & E3' & ->).
  assert (Hstage : forall x x' n (c c' : State -> bool),
             (readiness x = readiness x' -> c x = c' x') ->
             hush x = hush x' -> hush (rule (c x) n x) = hush (rule (c' x') n x')).
  { intros x x' n c c' Hcc Hx.
    rewrite (Hcc (proj1 (hush_fields x x' Hx))). by apply hush_rule. }
  assert (H1 : hush s1 = hush s1').
  { subst s1 s1'.
    apply (Hstage s s' connectionOpened
             (fun x => _connectionReady x && negb (_connectionReadyInvoked x))
             (fun x => _connectionReady x && negb (_connectionReadyInvoked x)));
      [|done].
    unfold readiness. intros [= ? ? ? ? ? ? ?]. congruence. }
  assert (H2 : hush s2 = hush s2').
  { subst s2 s2'.
    apply (Hstage s1 s1' documentLoaded
             (fun x => _documentReady x && negb (_documentReadyInvoked x))
             (fun x => _documentReady x && negb (_documentReadyInvoked x)));
      [|done].
    unfold readiness. intros [= ? ? ? ? ? ? ?]. congruence. }
  assert (H3 : hush s3 = hush s3').
  { subst s3 s3'.
    apply (Hstage s2 s2' globalSettingsAvailable
             (fun x => _globalSettingsReady x && negb (_globalSettingsInvoked x))
             (fun x => _globalSettingsReady x && negb (_globalSettingsInvoked x)));
      [|done].
    unfold readiness. intros [= ? ? ? ? ? ? ?]. congruence. }
  apply (Hstage s3 s3' setupReady
           (fun x => _globalSettingsInvoked x && _documentReadyInvoked x
                     && _connectionReadyInvoked x && negb (_onReadyInvoked x))
           (fun x => _globalSettingsInvoked x && _documentReadyInvoked x
                     && _connectionReadyInvoked x && negb (_onReadyInvoked x)));
    [|done].
  unfold readiness. intros [= ? ? ? ? ? ? ?]. congruence.
Qed.

End Hush.

Section Related.

Implicit Types (s : State).

Lemma related_ret {A} (RA : A -> A -> Prop) (a a' : A) :
  RA a a' -> related RA (mret a) (mret a').
Proof. intros Ha s s' H. by split. Qed.

Lemma related_throw {A} (RA : A -> A -> Prop) (e : exn) :
  related RA (throw e) (throw e).
Proof. intros s s' H. by split. Qed.

Lemma related_eval {A} (c : completion A) : related eq (eval c) (eval c).
Proof. intros s s' H. split; [done|]. by destruct c. Qed.

Lemma related_get : related (fun a a' => hush a = hush a') get get.
Proof. intros s s' H. by split. Qed.

Lemma related_bind {A B} (RA : A -> A -> Prop) (RB : B -> B -> Prop)
    (m m' : M A) (k k' : A -> M B) :
  related RA m m' ->
  (forall a a', RA a a' -> related RB (k a) (k' a')) ->
  related RB (m ≫= k) (m' ≫= k').
Proof.
  intros Hm Hk s s' H. destruct (Hm s s' H) as [H1 H2].
  unfold mbind, M_bind.
  destruct (m s) as [s1 [a|e]], (m' s') as [s1' [a'|e']]; simpl in *; try done.
  by apply Hk.
Qed.

Lemma related_lift (f f' : State -> State) :
  (forall s s', hush s = hush s' -> hush (f s) = hush (f' s')) ->
  related any_unit (lift f) (lift f').
Proof. intros Hf s s' H. split; [by apply Hf|done]. Qed.

(** A console line, written or not, on either side. *)
Lemma related_console (b b' : bool) (msg msg' : ConsoleMsg) :
  related any_unit (when b (lift (console msg))) (when b' (lift (console msg'))).
Proof.
  intros s s' H. split; [|by destruct b, b'].
  destruct b, b'; simpl; by rewrite ?hush_console.
Qed.

Lemma related_when (b : bool) (m m' : M unit) :
  related any_unit m m' -> related any_unit (when b m) (when b m').
Proof. intros Hm. destruct b; [exact Hm|]. by apply related_ret. Qed.

Lemma related_for_of {A} (xs : list A) (body body' : A -> M unit) :
  (forall x, related any_unit (body x) (body' x)) ->
  related any_unit (for_of xs body) (for_of xs body').
Proof.
  intros Hb. induction xs as [|x xs IH]; simpl.
  - by apply related_ret.
  - eapply related_bind; [apply Hb|]. intros _ _ _. exact IH.
Qed.

Lemma related_WebSocket_send (t : text) :
  related any_unit (WebSocket_send t) (WebSocket_send t).
Proof.
  intros s s' H. unfold WebSocket_send.
  destruct (hush_fields s s' H) as (_ & _ & _ & _ & <- & _).
  destruct (_ws s) as [[u []]|]; simpl; try done.
  split; [|done]. rewrite !effect_add, !hush_add. by rewrite H.
Qed.

Lemma related_send event data : related any_unit (send event data) (send event data).
Proof.
  intros s s' H. unfold send.
  set (s0 := if _debug s then _ else s).
  set (s0' := if _debug s' then _ else s').
  assert (H0 : hush s0 = hush s0').
  { subst s0 s0'. destruct (_debug s), (_debug s'); by rewrite ?hush_console. }
  destruct (hush_fields s0 s0' H0) as (_ & _ & _ & _ & Hw & Hq & _).
  rewrite <- Hw. destruct (_ws s0) as [w|] eqn:Ew.
  - by apply related_WebSocket_send.
  - simpl. split; [|done].
    set (s1 := if _debug s0 then _ else s0).
    set (s1' := if _debug s0' then _ else s0').
    assert (H1 : hush s1 = hush s1').
    { subst s1 s1'. destruct (_debug s0), (_debug s0'); by rewrite ?hush_console. }
    destruct (hush_fields s1 s1' H1) as (_ & _ & _ & _ & _ & Hq1 & _).
    rewrite <- Hq1.
    apply (hush_commutes (set_cachedEvents (_cachedEvents s1 ++ [_])) s1 s1');
      [done|exact H1].
Qed.

Lemma related_open : related any_unit _open _open.
Proof.
  unfold _open.
  eapply related_bind; [apply related_get|]. intros a a' Ha.
  destruct (hush_fields a a' Ha) as (_ & _ & <- & <- & _).
  eapply related_bind; [apply related_send|]. intros _ _ _.
  eapply related_bind; [apply related_get|]. intros b b' Hb.
  destruct (hush_fields b b' Hb) as (_ & _ & _ & _ & _ & <- & _).
  eapply related_bind.
  { apply related_when. eapply related_bind; [apply related_console|].
    intros _ _ _. apply related_for_of. intros t. apply related_WebSocket_send. }
  intros _ _ _.
  eapply related_bind.
  { apply related_lift. intros s s' H.
    by apply (hush_commutes (set_connectionReady true) s s'). }
  intros _ _ _.
  eapply related_bind; [apply related_lift, hush_handleReadyState|]. intros _ _ _.
  unfold requestGlobalSettings.
  eapply related_bind; [apply related_get|]. intros c c' Hc.
  destruct (hush_fields c c' Hc) as (_ & _ & <- & _).
  apply related_send.
Qed.

Lemma related_eventHandler ev : related any_unit (_eventHandler ev) (_eventHandler ev).
Proof.
  unfold _eventHandler.
  eapply related_bind; [apply related_eval|]. intros eventData _ <-.
  eapply related_bind; [apply related_get|]. intros a a' _.
  eapply related_bind; [apply related_console|]. intros _ _ _.
  eapply related_bind.
  { apply related_when.
    eapply related_bind; [apply related_eval|]. intros settings _ <-.
    eapply related_bind.
    { apply related_lift. intros s s' H. unfold cacheGlobalSettings.
      rewrite !effect_add.
      change (hush (set_globalSettings settings ?x))
        with (set_globalSettings settings (hush x)).
      by rewrite !hush_add, H. }
    intros _ _ _. eapply related_bind.
    { apply related_lift. intros s s' H.
      by apply (hush_commutes (set_globalSettingsReady true) s s'). }
    intros _ _ _. apply related_lift, hush_handleReadyState. }
  intros _ _ _. apply related_lift. intros s s' H. by apply hush_callEvents.
Qed.

Lemma hush_registerEvent eventName cb s s' :
  hush s = hush s' ->
  hush (registerEvent eventName cb s) = hush (registerEvent eventName cb s').
Proof.
  apply hush_commutes. intros x. unfold registerEvent.
  change (registeredEvents (hush x)) with (registeredEvents x).
  destruct (registeredEvents x !! eventName) as [cbs|] eqn:E.
  - change (registeredEvents (hush x)) with (registeredEvents x).
    by rewrite E.
  - simpl. by rewrite !lookup_insert_eq.
Qed.

Lemma related_eventListener l actionName instance :
  related any_unit (eventListener l actionName instance)
    (eventListener l actionName instance).
Proof.
  unfold eventListener. destruct (negb _).
  - apply related_throw.
  - apply related_lift. intros s s'. apply hush_registerEvent.
Qed.

Lemma related_connect port uuid regEvent info actionInfo :
  related any_unit
    (connectElgatoStreamDeckSocket port uuid regEvent info actionInfo)
    (connectElgatoStreamDeckSocket port uuid regEvent info actionInfo).
Proof.
  unfold connectElgatoStreamDeckSocket.
  eapply related_bind.
  { apply related_lift. intros s s'. by apply hush_commutes. }
  intros _ _ _. eapply related_bind.
  { apply related_lift. intros s s'. by apply hush_commutes. }
  intros _ _ _. eapply related_bind.
  { apply related_lift. intros s s'. by apply hush_commutes. }
  intros _ _ _. eapply related_bind; [apply related_eval|]. intros parsed _ <-.
  eapply related_bind.
  { apply related_lift. intros s s'. by apply hush_commutes. }
  intros _ _ _. eapply (related_bind any_unit).
  { destruct actionInfo as [text|]; [|by apply related_ret].
    apply related_when, related_lift. intros s s'. apply hush_callEvents. }
  intros _ _ _. apply related_lift. intros s s' H.
  destruct (hush_fields s s' H) as (_ & Hp & _).
  unfold _connectElgatoStreamDeckSocket. rewrite <- Hp.
  by apply (hush_commutes (set_ws _) s s').
Qed.

Lemma related_step op : related any_unit (step op) (step op).
Proof.
  destruct op as [events this|l actionName instance| |event data
                 |port uuid regEvent info actionInfo| | | |ev]; cbn [step].
  - unfold constructor. destruct events as [events|]; [|by apply related_ret].
    apply related_for_of. intros l. apply related_eventListener.
  - apply related_eventListener.
  - apply related_lift. intros s s' H. exact H.
  - apply related_send.
  - apply related_connect.
  - apply related_lift. intros s s' H. unfold documentReady_callback.
    apply hush_handleReadyState.
    by apply (hush_commutes (set_documentReady true) s s').
  - eapply related_bind; [|intros _ _ _; apply related_open].
    apply related_lift. intros s s' H.
    destruct (hush_fields s s' H) as (_ & _ & _ & _ & Hw & _).
    unfold ws_becomes. rewrite <- Hw. destruct (_ws s) as [w|]; [|done].
    by apply (hush_commutes (set_ws _) s s').
  - eapply related_bind.
    + apply related_lift. intros s s' H.
      destruct (hush_fields s s' H) as (_ & _ & _ & _ & Hw & _).
      unfold ws_becomes. rewrite <- Hw. destruct (_ws s) as [w|]; [|done].
      by apply (hush_commutes (set_ws _) s s').
    + intros _ _ _. apply related_lift. intros s s'. apply hush_callEvents.
  - apply related_eventHandler.
Qed.

Lemma related_run ops s s' : hush s = hush s' -> hush (run ops s) = hush (run ops s').
Proof.
  revert s s'. induction ops as [|op ops IH]; intros s s' H; simpl; [done|].
  apply IH. by apply related_step.
Qed.

End Related.

(** X14. Debugging changes the console and nothing else: with debugging
    switched on before any sequence of events, every event completes as it
    does without (normally, or with the same exception), and the state
    reached is the same but for the console lines and the debug switch: the
    same frames on the wire, the same queue, the same subscriptions, the
    same notifications and applications. *)
Theorem debug_changes_console_only (ops : list Op) (op : Op) (s : State) :
  hush (run ops (enableDebug s)) = hush (run ops s)
  /\ agree any_unit (snd (step op (run ops (enableDebug s))))
       (snd (step op (run ops s)))
  /\ transmitted (run ops (enableDebug s)) = transmitted (run ops s).
Proof.
  assert (H : hush (run ops (enableDebug s)) = hush (run ops s))
    by (by apply related_run).
  split; [exact H|]. split; [by apply related_step|].
  apply (f_equal transmitted) in H. unfold transmitted, hush in H. simpl in H.
  unfold transmitted.
  assert (Hn : forall l,
             omap (fun e => match e with Transmit t => Some t | _ => None end)
                  (non_console l)
             = omap (fun e => match e with Transmit t => Some t | _ => None end) l).
  { unfold non_console. induction l as [|e l IH]; [done|].
    destruct e; simpl; try exact IH. f_equal. exact IH. }
  by rewrite !Hn in H.
Qed.

(** ** A frame that is not JSON *)

Section Malformed.

Implicit Types (s : State).






End Malformed.



